(** * exchange-rates: a shallow embedding of [ExchangeRatesApi]

    The class of [src/exchange-rates-api.ts] is embedded method by method.
    Its instance fields become a record, its methods computations in a small
    state-and-exception monad over that record and a log of the HTTP
    requests issued, so that "throws before any request" and "does not touch
    the configuration" are statements about the final state.

    Conventions of the embedding:
    - a JavaScript [number] is a rational of [Q]; every arithmetic result is
      put in lowest terms with [Qred], so that Leibniz equality is numeric
      equality. Binary floating point rounding is not modelled;
    - a [string] is a sequence of bytes; [String.prototype.toUpperCase],
      which follows the Unicode case mappings, is a parameter of the
      methods that call it;
    - a plain object used as a map is an association list in insertion
      order with distinct keys;
    - a promise is run to completion: a rejection and a synchronous [throw]
      are both the outcome [Thrown]. *)

From Stdlib Require Import ZArith QArith Qround Qabs Bool List Lia.
From Stdlib Require Import Strings.String Strings.Ascii Numbers.DecimalString.
Import ListNotations.

Open Scope string_scope.
Open Scope Z_scope.

(* ------------------------------------------------------------------ *)
(** ** JavaScript strings *)

Module JsString.

Definition is_lower (c : ascii) : bool :=
  let n := nat_of_ascii c in (97 <=? n)%nat && (n <=? 122)%nat.

Definition upper_char (c : ascii) : ascii :=
  if is_lower c then ascii_of_nat (nat_of_ascii c - 32) else c.

(** What [String.prototype.toUpperCase] does to a string of ASCII
    characters.  The methods take [toUpperCase] itself as a parameter;
    this function stands for it where an example is run, on ASCII
    inputs. *)
Fixpoint toUpperCase_ascii (s : string) : string :=
  match s with
  | EmptyString => EmptyString
  | String c r => String (upper_char c) (toUpperCase_ascii r)
  end.

(** [Array.prototype.join]. *)
Fixpoint join (sep : string) (l : list string) : string :=
  match l with
  | [] => ""
  | [x] => x
  | x :: r => x ++ sep ++ join sep r
  end.

(** Decimal rendering of an integer, as in a template literal. *)
Definition of_Z (z : Z) : string := NilZero.string_of_int (Z.to_int z).

Fixpoint repeat_char (c : ascii) (n : nat) : string :=
  match n with
  | O => ""
  | S k => String c (repeat_char c k)
  end.

(** [String.prototype.padStart] with a one-character filler. *)
Definition padStart (width : nat) (c : ascii) (s : string) : string :=
  repeat_char c (width - String.length s) ++ s.

(** A string is truthy when it is not empty. *)
Definition truthy (s : string) : bool :=
  match s with EmptyString => false | String _ _ => true end.

Definition hex_digit (n : nat) : ascii :=
  if (n <? 10)%nat then ascii_of_nat (48 + n) else ascii_of_nat (55 + n).

Definition unreserved (c : ascii) : bool :=
  let n := nat_of_ascii c in
  ((65 <=? n) && (n <=? 90))%nat        (* A-Z *)
  || ((97 <=? n) && (n <=? 122))%nat    (* a-z *)
  || ((48 <=? n) && (n <=? 57))%nat     (* 0-9 *)
  || existsb (Nat.eqb n) [45; 95; 46; 33; 126; 42; 39; 40; 41]%nat.
                                        (* - _ . ! ~ * ' ( ) *)

(** [encodeURIComponent]: every byte outside the unreserved set becomes
    [%XX]. *)
Fixpoint encodeURIComponent (s : string) : string :=
  match s with
  | EmptyString => EmptyString
  | String c r =>
      if unreserved c then String c (encodeURIComponent r)
      else
        let n := nat_of_ascii c in
        String "%" (String (hex_digit (n / 16))
                      (String (hex_digit (n mod 16)) (encodeURIComponent r)))
  end.

End JsString.

(* ------------------------------------------------------------------ *)
(** ** Arrays *)

Module JsArray.

(** [a[i] = v] for an index within the array. *)
Fixpoint set_nth {A : Type} (i : nat) (v : A) (a : list A) : list A :=
  match a, i with
  | [], _ => []
  | _ :: r, O => v :: r
  | x :: r, S j => x :: set_nth j v r
  end.

End JsArray.

(* ------------------------------------------------------------------ *)
(** ** Plain objects used as maps *)

Module JsObject.

Definition t (A : Type) := list (string * A).

Definition keys {A} (o : t A) : list string := map fst o.
Definition values {A} (o : t A) : list A := map snd o.

Fixpoint get {A} (o : t A) (k : string) : option A :=
  match o with
  | [] => None
  | (k', v) :: r => if String.eqb k' k then Some v else get r k
  end.

(** [o[k] = v]: an existing key keeps its position, a new key goes last. *)
Fixpoint set {A} (o : t A) (k : string) (v : A) : t A :=
  match o with
  | [] => [(k, v)]
  | (k', v') :: r =>
      if String.eqb k' k then (k', v) :: r else (k', v') :: set r k v
  end.

(** [k in o], on the object's own keys. *)
Definition has_key (o : list string) (k : string) : bool :=
  existsb (String.eqb k) o.

End JsObject.

(* ------------------------------------------------------------------ *)
(** ** Dates *)

(** Modelled from the spec: the date utilities ([./utils] and [date-fns] are
    not part of the sources).  The spec asks three capabilities of them: parse
    an input into a normalized calendar date, format a normalized date as
    [YYYY-MM-DD], compare two dates for ordering.  A date is therefore a
    calendar day, ordered lexicographically. *)
Record Date : Type := mkDate { year : Z; month : Z; day : Z }.

Module DateFns.

Definition getYear (d : Date) : Z := year d.

(** [isAfter a b]: [a] is strictly later than [b]. *)
Definition isAfter (a b : Date) : bool :=
  (year b <? year a)
  || ((year a =? year b)
      && ((month b <? month a)
          || ((month a =? month b) && (day b <? day a)))).

End DateFns.

Module Utils.

(** Modelled from the spec: [parseDate] turns its input into a normalized
    calendar date; the setters are typed to receive a [Date], which is
    already one. *)
Definition parseDate (d : Date) : Date := d.

(** Modelled from the spec: [formatDate] renders [YYYY-MM-DD]. *)
Definition formatDate (d : Date) : string :=
  JsString.padStart 4 "0" (JsString.of_Z (year d)) ++ "-"
  ++ JsString.padStart 2 "0" (JsString.of_Z (month d)) ++ "-"
  ++ JsString.padStart 2 "0" (JsString.of_Z (day d)).

End Utils.

(* ------------------------------------------------------------------ *)
(** ** The query string builder *)

(** Modelled from the spec: [./query-string-builder] is not part of the
    sources.  The builder collects [key=value] pairs in the order of the
    [addParam] calls, percent-encoding the value unless the third argument
    is [false], and renders them joined by [&] after a [?] (nothing when no
    parameter was added). *)
Module QueryStringBuilder.

Definition t := list (string * string).

Definition new : t := [].

Definition addParam (qs : t) (key value : string) (encode : bool) : t :=
  (qs ++ [(key, if encode then JsString.encodeURIComponent value
               else value)])%list.

Definition render (p : string * string) : string := fst p ++ "=" ++ snd p.

Definition toString (qs : t) : string :=
  match qs with
  | [] => ""
  | _ => "?" ++ JsString.join "&" (map render qs)
  end.

Definition param_keys (qs : t) : list string := map fst qs.

End QueryStringBuilder.

(* ------------------------------------------------------------------ *)
(** ** Numbers, arguments and responses *)

(** The values a caller can pass for a parameter read as a number that may
    be left out. *)
Inductive JsArg : Type :=
| Undefined
| Null
| Num (q : Q)
| NaN
| Infinity (negative : bool).

Module JsNumber.

Definition is_undefined (a : JsArg) : bool :=
  match a with Undefined => true | _ => false end.

Definition is_null (a : JsArg) : bool :=
  match a with Null => true | _ => false end.

(** [Number.isInteger]. *)
Definition isInteger (a : JsArg) : bool :=
  match a with
  | Num q => Pos.eqb (Qden (Qred q)) 1
  | _ => false
  end.

(** [a < 0], after [ToNumber]. *)
Definition lt_zero (a : JsArg) : bool :=
  match a with
  | Num q => Z.ltb (Qnum q) 0
  | Infinity negative => negative
  | _ => false
  end.

Definition truncate (q : Q) : Z := Z.quot (Qnum q) (Zpos (Qden q)).

(** [ToIntegerOrInfinity]; [None] stands for an infinity. *)
Definition toIntegerOrInfinity (a : JsArg) : option Z :=
  match a with
  | Num q => Some (truncate q)
  | Infinity _ => None
  | _ => Some 0
  end.

(** [+x.toFixed(fractionDigits)] in exact arithmetic: [x] rounded to [f]
    decimals, halves away from zero; [None] is the [RangeError] of a digit
    count outside 0..100, which is thrown before [x] is looked at.  From
    10^21 on [toFixed] prints the number itself.  A double is rounded by
    its binary value, which need not round as the decimal it was written
    as: the digits this function gives are those of the code where the
    decimal arithmetic is exact in binary too, and nothing is stated
    about the digits elsewhere. *)
Definition toFixed (x : Q) (fractionDigits : JsArg) : option Q :=
  match toIntegerOrInfinity fractionDigits with
  | None => None
  | Some f =>
      if (f <? 0) || (100 <? f) then None
      else if Qle_bool (inject_Z (10 ^ 21)) (Qabs x) then Some (Qred x)
      else
        let scale := 10 ^ f in
        let n := Qfloor (Qabs x * inject_Z scale + (1 # 2)) in
        Some (Qred (inject_Z (Z.sgn (Qnum x) * n) / inject_Z scale))
  end.

(** [l.reduce((p, c) => p + c, 0)]. *)
Definition sum (l : list Q) : Q := fold_left Qplus l 0%Q.

End JsNumber.

(** [number | Record<string, number>]: what a key of [rates] holds. *)
Inductive Rate : Type :=
| Scalar (q : Q)
| PerCurrency (m : JsObject.t Q).

Definition Rates : Type := JsObject.t Rate.

(** [Record<string, number | Record<string, number>> | number]: what
    [fetch] and [avg] resolve to. *)
Inductive Value : Type :=
| VNum (q : Q)
| VRates (o : Rates).

Definition Value_of_Rate (r : Rate) : Value :=
  match r with
  | Scalar q => VNum q
  | PerCurrency m => VRates (map (fun kv => (fst kv, Scalar (snd kv))) m)
  end.

(** The response of the API: its HTTP status and the [rates] field of its
    body ([None] when the body has none). *)
Record Response : Type := mkResponse { status : Z; data_rates : option Rates }.

(** What [axios.get] settles to: a response, or a rejection carrying a
    message and, when the server sent one, the error of its body already
    printed by [JSON.stringify].  By default axios resolves on a status
    from 200 to 299 only and turns every other answer into a rejection;
    the settlements are not restricted here, so what is proved for every
    server holds for those axios can produce. *)
Inductive AxiosResult : Type :=
| Resolved (r : Response)
| Rejected (message : string) (response_error : option string).

(* ------------------------------------------------------------------ *)
(** ** Errors *)

Inductive Exn : Type :=
| ExchangeRatesError (message : string)
| TypeError (message : string)
| RangeError (message : string)
| AxiosError (message : string) (response_error : option string).

(** The error kinds of the specification are the messages of the
    [throw] statements. *)
Definition InvalidCurrency (currency : string) : Exn :=
  ExchangeRatesError (currency ++ " is not a valid currency").
Definition InvalidDateRange : Exn :=
  ExchangeRatesError
    "Cannot set the 'from' date to 'latest' when fetching a date range".
Definition InvalidDateOrder : Exn :=
  ExchangeRatesError "The 'from' date cannot be after the 'to' date".
Definition UnsupportedHistoricalYear : Exn :=
  ExchangeRatesError "Cannot get historical rates before 1999".
Definition BadResponse (status : Z) : Exn :=
  ExchangeRatesError
    ("API returned a bad response (HTTP " ++ JsString.of_Z status ++ ")").
Definition FetchFailed (error : string) : Exn :=
  ExchangeRatesError ("Couldn't fetch the exchange rate, " ++ error).
Definition InvalidArgument_notInteger : Exn :=
  ExchangeRatesError "The decimal places parameter has to be an integer".
Definition InvalidArgument_negative : Exn :=
  ExchangeRatesError "Decimal places cannot be negative".

Definition is_InvalidArgument (e : Exn) : bool :=
  match e with
  | ExchangeRatesError m =>
      String.eqb m "The decimal places parameter has to be an integer"
      || String.eqb m "Decimal places cannot be negative"
  | _ => false
  end.

(* ------------------------------------------------------------------ *)
(** ** The instance and the monad of its methods *)

Inductive FromDate : Type :=
| FromLatest
| FromOn (d : Date).

Record ExchangeRatesApi : Type := mkApi {
  _apiBaseUrl : string;
  _accessKey : string;
  _base : option string;
  _symbols : option (list string);
  _from : FromDate;
  _to : option Date
}.

(** The instance the constructor leaves, [apiBaseUrl] being its [url]
    without the trailing slash. *)
Definition fresh (apiBaseUrl accessKey : string) : ExchangeRatesApi :=
  mkApi apiBaseUrl accessKey None None FromLatest None.

Definition with_from (f : FromDate) (a : ExchangeRatesApi) : ExchangeRatesApi :=
  mkApi (_apiBaseUrl a) (_accessKey a) (_base a) (_symbols a) f (_to a).
Definition with_to (t : option Date) (a : ExchangeRatesApi) : ExchangeRatesApi :=
  mkApi (_apiBaseUrl a) (_accessKey a) (_base a) (_symbols a) (_from a) t.
Definition with_base (b : option string) (a : ExchangeRatesApi)
  : ExchangeRatesApi :=
  mkApi (_apiBaseUrl a) (_accessKey a) b (_symbols a) (_from a) (_to a).
Definition with_symbols (l : option (list string)) (a : ExchangeRatesApi)
  : ExchangeRatesApi :=
  mkApi (_apiBaseUrl a) (_accessKey a) (_base a) l (_from a) (_to a).

(** The world a method runs in: the instance, the server behind
    [axios.get] and the requests issued so far. *)
Record World : Type := mkWorld {
  this : ExchangeRatesApi;
  network : string -> AxiosResult;
  requests : list string
}.

Inductive Outcome (A : Type) : Type :=
| Returned (a : A)
| Thrown (e : Exn).
Arguments Returned {A} a.
Arguments Thrown {A} e.

Definition M (A : Type) : Type := World -> Outcome A * World.

Definition ret {A} (a : A) : M A := fun w => (Returned a, w).

Definition bind {A B} (m : M A) (k : A -> M B) : M B :=
  fun w =>
    match m w with
    | (Returned a, w') => k a w'
    | (Thrown e, w') => (Thrown e, w')
    end.

Definition throw {A} (e : Exn) : M A := fun w => (Thrown e, w).

(** [m.catch(h)], and [try m catch h]. *)
Definition catch {A} (m : M A) (h : Exn -> M A) : M A :=
  fun w =>
    match m w with
    | (Returned a, w') => (Returned a, w')
    | (Thrown e, w') => h e w'
    end.

Definition getThis : M ExchangeRatesApi := fun w => (Returned (this w), w).

Definition modifyThis (f : ExchangeRatesApi -> ExchangeRatesApi) : M unit :=
  fun w => (Returned tt, mkWorld (f (this w)) (network w) (requests w)).

(** [if (c) throw e]. *)
Definition throw_if (c : bool) (e : Exn) : M unit :=
  if c then throw e else ret tt.

Declare Scope js_scope.
Delimit Scope js_scope with js.
Notation "x <- m ;; k" := (bind m (fun x => k))
  (at level 100, m at next level, right associativity) : js_scope.
Notation "m ;; k" := (bind m (fun _ => k))
  (at level 100, right associativity) : js_scope.
Open Scope js_scope.

(** [axios.get(url)]: the request is issued, then settles. *)
Definition axios_get (url : string) : M Response :=
  fun w =>
    let w' := mkWorld (this w) (network w) (requests w ++ [url])%list in
    match network w url with
    | Resolved r => (Returned r, w')
    | Rejected message response_error =>
        (Thrown (AxiosError message response_error), w')
    end.

Definition is_returned {A} (o : Outcome A) : bool :=
  match o with Returned _ => true | Thrown _ => false end.

(* ------------------------------------------------------------------ *)
(** ** The methods of [ExchangeRatesApi] *)

(** What [symbols] receives: one code or an array of codes. *)
Inductive SymbolsArg : Type :=
| OneSymbol (currency : string)
| ManySymbols (currencies : list string).

Section Api.

(** The names [name in currencies] holds for: the keys of the table of
    [./currencies], which is not part of the sources (for a plain object
    JavaScript adds the names of [Object.prototype], none of which is an
    upper-cased string). *)
Variable currencies : list string.

(** [String.prototype.toUpperCase], a built-in of the language: whatever
    is proved holds for every function in its place. *)
Variable toUpperCase : string -> string.

Definition _validateCurrency (currency : string) : M unit :=
  throw_if (negb (JsObject.has_key currencies currency))
    (ExchangeRatesError (currency ++ " is not a valid currency")).

Definition _isHistoryRequest : M bool :=
  self <- getThis ;;
  ret (match _to self with Some _ => true | None => false end).

(** [this._to && isAfter(this._from, this._to)] *)
Definition from_isAfter_to (self : ExchangeRatesApi) : bool :=
  match _to self, _from self with
  | Some t, FromOn f => DateFns.isAfter f t
  | _, _ => false
  end.

(** [this._from !== 'latest' && getYear(this._from) < 1999] *)
Definition from_before_1999 (self : ExchangeRatesApi) : bool :=
  match _from self with
  | FromLatest => false
  | FromOn f => DateFns.getYear f <? 1999
  end.

Definition from_is_latest (self : ExchangeRatesApi) : bool :=
  match _from self with FromLatest => true | FromOn _ => false end.

Definition _validate : M unit :=
  self <- getThis ;;
  history <- _isHistoryRequest ;;
  (if history then
     throw_if (from_is_latest self)
       (ExchangeRatesError
          "Cannot set the 'from' date to 'latest' when fetching a date range") ;;
     throw_if (from_isAfter_to self)
       (ExchangeRatesError "The 'from' date cannot be after the 'to' date")
   else ret tt) ;;
  throw_if (from_before_1999 self)
    (ExchangeRatesError "Cannot get historical rates before 1999").

Definition _buildUrl : M string :=
  self <- getThis ;;
  let url := _apiBaseUrl self ++ "/" in
  let qs := QueryStringBuilder.new in
  history <- _isHistoryRequest ;;
  let '(url, qs) :=
    if history then
      let qs := QueryStringBuilder.addParam qs "start_at"
                  (match _from self with
                   | FromOn f => Utils.formatDate f
                   | FromLatest => ""
                   end) true in
      let qs := QueryStringBuilder.addParam qs "end_at"
                  (match _to self with
                   | Some t => Utils.formatDate t
                   | None => ""
                   end) true in
      (url ++ "history", qs)
    else
      (url ++ match _from self with
              | FromLatest => "latest"
              | FromOn f => Utils.formatDate f
              end, qs) in
  let qs :=
    match _base self with
    | Some b =>
        if JsString.truthy b then QueryStringBuilder.addParam qs "base" b true
        else qs
    | None => qs
    end in
  let qs :=
    match _symbols self with
    | Some l =>
        QueryStringBuilder.addParam qs "symbols" (JsString.join "," l) false
    | None => qs
    end in
  let qs :=
    if JsString.truthy (_accessKey self)
    then QueryStringBuilder.addParam qs "access_key" (_accessKey self) true
    else qs in
  ret (url ++ QueryStringBuilder.toString qs).

(** The chainable setters return [this]: a chain is a sequence.  [at_]
    is the method [at]. *)
Definition at_ (date : Date) : M unit :=
  modifyThis (with_from (FromOn (Utils.parseDate date))).

Definition latest : M unit :=
  modifyThis (with_from FromLatest).

Definition from (date : Date) : M unit :=
  modifyThis (with_from (FromOn (Utils.parseDate date))).

Definition to (date : Date) : M unit :=
  modifyThis (with_to (Some (Utils.parseDate date))).

(** The parameter is typed [string]: the [typeof] guard does not fire. *)
Definition base (currency : string) : M unit :=
  let currencyUpper := toUpperCase currency in
  _validateCurrency currencyUpper ;;
  modifyThis (with_base (Some currencyUpper)).

(** The loop of [symbols] on a string or on an array that is not the one
    the instance holds: each code is upper-cased and validated in turn,
    the first invalid one throws.  The loop overwrites the array entry by
    entry; until the array is stored it is the caller's alone and not
    part of the world.  [symbols_held] below is the call on the array the
    instance holds. *)
Fixpoint symbols_loop (currenciesArray : list string) : M (list string) :=
  match currenciesArray with
  | [] => ret []
  | currency :: rest =>
      let currency := toUpperCase currency in
      _validateCurrency currency ;;
      rest' <- symbols_loop rest ;;
      ret (currency :: rest')
  end.

Definition symbols (arg : SymbolsArg) : M unit :=
  let currenciesArray :=
    match arg with
    | OneSymbol c => [c]
    | ManySymbols l => l
    end in
  currenciesArray <- symbols_loop currenciesArray ;;
  modifyThis (with_symbols (Some currenciesArray)).

(** [currenciesArray[i] = currency], the array being the one the instance
    holds. *)
Definition write_held (i : nat) (currency : string) : M unit :=
  modifyThis (fun self =>
                with_symbols
                  (match _symbols self with
                   | Some l => Some (JsArray.set_nth i currency l)
                   | None => None
                   end) self).

(** The loop of [symbols] when its argument is the very array the
    instance holds ([this._symbols] and the argument are one object):
    every entry that passes is overwritten in the held array at once, so
    what was written stays written when a later entry throws. *)
Fixpoint symbols_held_loop (i : nat) (todo : list string) : M unit :=
  match todo with
  | [] => ret tt
  | currency :: rest =>
      let currency := toUpperCase currency in
      _validateCurrency currency ;;
      write_held i currency ;;
      symbols_held_loop (S i) rest
  end.

(** [symbols(held)], [held] being the array the instance holds; the final
    [this._symbols = currenciesArray] stores the same array again.  An
    instance that holds no array cannot be called this way. *)
Definition symbols_held : M unit :=
  self <- getThis ;;
  match _symbols self with
  | Some currenciesArray => symbols_held_loop 0 currenciesArray
  | None => ret tt
  end.

(** [get url()] *)
Definition url : M string :=
  _validate ;;
  _buildUrl.

(** The message [Object.keys(undefined)] throws with. *)
Definition keys_of_undefined : string :=
  "Cannot convert undefined or null to object".

(** [err.response?.data?.error ? JSON.stringify(...) : err.message] *)
Definition error_text (err : Exn) : string :=
  match err with
  | AxiosError message (Some response_error) => response_error
  | AxiosError message None => message
  | ExchangeRatesError message => message
  | TypeError message => message
  | RangeError message => message
  end.

Definition fetch : M Value :=
  _validate ;;
  url <- _buildUrl ;;
  catch
    (response <- axios_get url ;;
     throw_if (negb (status response =? 200))
       (ExchangeRatesError
          ("API returned a bad response (HTTP "
           ++ JsString.of_Z (status response) ++ ")")) ;;
     match data_rates response with
     | None => throw (TypeError keys_of_undefined)
     | Some rates =>
         match rates with
         | [(_, rate)] => ret (Value_of_Rate rate)
         | _ => ret (VRates rates)
         end
     end)
    (fun err =>
       throw (ExchangeRatesError
                ("Couldn't fetch the exchange rate, " ++ error_text err))).

(** The names every plain object inherits from [Object.prototype]. *)
Definition Object_prototype_names : list string :=
  ["constructor"; "__defineGetter__"; "__defineSetter__"; "hasOwnProperty";
   "__lookupGetter__"; "__lookupSetter__"; "isPrototypeOf";
   "propertyIsEnumerable"; "toString"; "valueOf"; "__proto__";
   "toLocaleString"].

(** [mergedObj[key] = mergedObj[key] || []; mergedObj[key].push(v)] for a
    [key] that [Object.prototype] does not define: [mergedObj[key]] is
    then the list pushed so far, or undefined. *)
Definition push_rate (mergedObj : JsObject.t (list Q)) (kv : string * Q)
  : JsObject.t (list Q) :=
  let old := match JsObject.get mergedObj (fst kv) with
             | Some l => l
             | None => []
             end in
  JsObject.set mergedObj (fst kv) (old ++ [snd kv])%list.

(** The body of [Object.values(rates).forEach] when no key is a name of
    [Object.prototype]. *)
Definition merge_entry (mergedObj : JsObject.t (list Q)) (obj : Rate)
  : JsObject.t (list Q) :=
  match obj with
  | PerCurrency m => fold_left push_rate m mergedObj
  | Scalar _ => mergedObj
  end.

(** [mergedObj[key] = mergedObj[key] || []; mergedObj[key].push(v)] on
    the plain object [mergedObj]: for a name of [Object.prototype],
    [mergedObj[key]] is the inherited function or object, which is truthy
    and has no [push], and the call throws a TypeError. *)
Definition push_checked (mergedObj : JsObject.t (list Q)) (kv : string * Q)
  : M (JsObject.t (list Q)) :=
  if JsObject.has_key Object_prototype_names (fst kv)
  then throw (TypeError "mergedObj[key].push is not a function")
  else ret (push_rate mergedObj kv).

(** [Object.keys(obj).forEach], key after key. *)
Fixpoint push_all (m : JsObject.t Q) (mergedObj : JsObject.t (list Q))
  : M (JsObject.t (list Q)) :=
  match m with
  | [] => ret mergedObj
  | kv :: rest =>
      mergedObj <- push_checked mergedObj kv ;;
      push_all rest mergedObj
  end.

(** [Object.values(rates).forEach], date after date. *)
Fixpoint merge_all (rs : list Rate) (mergedObj : JsObject.t (list Q))
  : M (JsObject.t (list Q)) :=
  match rs with
  | [] => ret mergedObj
  | PerCurrency m :: rest =>
      mergedObj <- push_all m mergedObj ;;
      merge_all rest mergedObj
  | Scalar _ :: rest => merge_all rest mergedObj
  end.

(** [Object.values] of what [fetch] resolved to; a number has none. *)
Definition values_of (rates : Value) : list Rate :=
  match rates with
  | VRates o => JsObject.values o
  | VNum _ => []
  end.

(** [mergedObj[key].reduce((p, c) => p + c, 0) / mergedObj[key].length],
    in exact arithmetic. *)
Definition avgRate_of (l : list Q) : Q :=
  Qred (JsNumber.sum l / inject_Z (Z.of_nat (List.length l))).

(** The body of [keys.forEach]. *)
Fixpoint average_each (decimalPlaces : JsArg)
         (mergedObj : JsObject.t (list Q)) : M (JsObject.t Q) :=
  match mergedObj with
  | [] => ret []
  | (key, l) :: rest =>
      let avgRate := avgRate_of l in
      v <- (if JsNumber.is_null decimalPlaces then ret avgRate
            else match JsNumber.toFixed avgRate decimalPlaces with
                 | Some r => ret r
                 | None =>
                     throw (RangeError
                              "toFixed() digits argument must be between 0 and 100")
                 end) ;;
      rest' <- average_each decimalPlaces rest ;;
      ret ((key, v) :: rest')
  end.

Definition avg (decimalPlaces : JsArg) : M Value :=
  throw_if (negb (JsNumber.is_undefined decimalPlaces)
            && negb (JsNumber.isInteger decimalPlaces))
    (ExchangeRatesError "The decimal places parameter has to be an integer") ;;
  throw_if (negb (JsNumber.is_undefined decimalPlaces)
            && JsNumber.lt_zero decimalPlaces)
    (ExchangeRatesError "Decimal places cannot be negative") ;;
  rates <- fetch ;;
  history <- _isHistoryRequest ;;
  if negb history then ret rates
  else
    mergedObj <- merge_all (values_of rates) [] ;;
    avgRates <- average_each decimalPlaces mergedObj ;;
    match avgRates with
    | [(_, v)] => ret (VNum v)
    | _ => ret (VRates (map (fun kv => (fst kv, Scalar (snd kv))) avgRates))
    end.

End Api.

(** Not a method: the caller, who still has the array it handed to
    [symbols], changes its content; the instance holds that array, so its
    symbols change with it. *)
Definition caller_writes (content : list string) : M unit :=
  modifyThis (fun self =>
                match _symbols self with
                | Some _ => with_symbols (Some content) self
                | None => self
                end).

(* ------------------------------------------------------------------ *)
(** ** Vocabulary of the specification and fixtures *)

(** "Any concrete date of the configuration has a year before 1999". *)
Definition has_date_before_1999 (self : ExchangeRatesApi) : bool :=
  match _from self with
  | FromOn f => DateFns.getYear f <? 1999
  | FromLatest => false
  end
  || match _to self with
     | Some t => DateFns.getYear t <? 1999
     | None => false
     end.

(** "base, symbols, access_key, in this order, each included only if
    set", following the words of the specification. *)
Definition common_params (self : ExchangeRatesApi) : QueryStringBuilder.t :=
  (match _base self with
   | Some b => if JsString.truthy b
               then [("base", JsString.encodeURIComponent b)] else []
   | None => []
   end
   ++ match _symbols self with
      | Some l => [("symbols", JsString.join "," l)]
      | None => []
      end
   ++ if JsString.truthy (_accessKey self)
      then [("access_key", JsString.encodeURIComponent (_accessKey self))]
      else [])%list.

(** "Only the [_from] field was written": every other field of the
    instance, the server and the request log are as before. *)
Definition same_except_from (w w' : World) : Prop :=
  _to (this w') = _to (this w)
  /\ _base (this w') = _base (this w)
  /\ _symbols (this w') = _symbols (this w)
  /\ _apiBaseUrl (this w') = _apiBaseUrl (this w)
  /\ _accessKey (this w') = _accessKey (this w)
  /\ network w' = network w
  /\ requests w' = requests w.

(** "A non-negative integer". *)
Definition NonNegativeInteger (a : JsArg) : Prop :=
  match a with
  | Num q => exists n : Z, 0 <= n /\ (q == inject_Z n)%Q
  | _ => False
  end.

(** A string of unreserved characters only, which the encoder leaves alone. *)
Fixpoint plain (s : string) : Prop :=
  match s with
  | EmptyString => True
  | String c r => JsString.unreserved c = true /\ plain r
  end.

(** The URL of the specification: [{baseUrl}/{latest|YYYY-MM-DD|history}]
    followed by the query, [start_at] and [end_at] first on a range. *)
Module UrlSpec.

Definition path_segment (self : ExchangeRatesApi) : string :=
  match _to self, _from self with
  | Some _, _ => "history"
  | None, FromLatest => "latest"
  | None, FromOn d => Utils.formatDate d
  end.

Definition range_params (self : ExchangeRatesApi) : QueryStringBuilder.t :=
  match _to self with
  | Some t =>
      [("start_at", match _from self with
                    | FromOn f => Utils.formatDate f
                    | FromLatest => ""
                    end);
       ("end_at", Utils.formatDate t)]
  | None => []
  end.

Definition url_of (self : ExchangeRatesApi) : string :=
  _apiBaseUrl self ++ "/" ++ path_segment self
  ++ QueryStringBuilder.toString (range_params self ++ common_params self)%list.

End UrlSpec.

Module Fixtures.

Definition table : list string := ["EUR"; "USD"; "GBP"].

Definition unreachable : string -> AxiosResult :=
  fun _ => Rejected "Network Error" None.

Definition serving (rates : Rates) : string -> AxiosResult :=
  fun _ => Resolved (mkResponse 200 (Some rates)).

Definition jan_2020 : Date := mkDate 2020 1 1.
Definition end_jan_2020 : Date := mkDate 2020 1 31.
Definition dec_1998 : Date := mkDate 1998 12 31.

Definition client : ExchangeRatesApi := fresh "https://api.example" "KEY".

Definition range (f t : Date) : ExchangeRatesApi :=
  with_to (Some t) (with_from (FromOn f) client).

Definition world_of (self : ExchangeRatesApi) : World :=
  mkWorld self unreachable [].

(** [{"2021-01-01":{"USD":1.0,"GBP":0.8},"2021-01-02":{"USD":1.2}}] *)
Definition history_rates : Rates :=
  [("2021-01-01", PerCurrency [("USD", 1.0%Q); ("GBP", 0.8%Q)]);
   ("2021-01-02", PerCurrency [("USD", 1.2%Q)])].

Definition history_world : World :=
  mkWorld (range (mkDate 2021 1 1) (mkDate 2021 1 2))
    (serving history_rates) [].

(** [{rates:{USD:1.1}}] and [{rates:{USD:1.1,GBP:0.9}}] *)
Definition one_rate : Rates := [("USD", Scalar 1.1%Q)].
Definition two_rates : Rates := [("USD", Scalar 1.1%Q); ("GBP", Scalar 0.9%Q)].

End Fixtures.

(* ------------------------------------------------------------------ *)
(** ** Vocabulary for the rest of the class *)

(** The codes [symbols] walks through. *)
Definition codes_of (arg : SymbolsArg) : list string :=
  match arg with
  | OneSymbol c => [c]
  | ManySymbols l => l
  end.

(** "The code is a key of the table once upper-cased". *)
Definition known (table : list string) (toUpperCase : string -> string)
           (currency : string) : Prop :=
  In (toUpperCase currency) table.

(** The rates a history response lists for currency [k], date after
    date. *)
Definition occurrences (k : string) (rs : list Rate) : list Q :=
  flat_map (fun r =>
              match r with
              | PerCurrency m =>
                  map snd (filter (fun kv => String.eqb (fst kv) k) m)
              | Scalar _ => []
              end) rs.

(** The currency names a history response lists, date after date. *)
Definition names_of (rs : list Rate) : list string :=
  flat_map (fun r =>
              match r with
              | PerCurrency m => JsObject.keys m
              | Scalar _ => []
              end) rs.

(** "No currency of the response is named as a property that plain
    objects inherit". *)
Definition no_inherited_name (rs : list Rate) : Prop :=
  Forall (fun k => JsObject.has_key Object_prototype_names k = false)
    (names_of rs).

(** [mergedObj[k]], an absent key read as no rate at all. *)
Definition rates_of (mergedObj : JsObject.t (list Q)) (k : string) : list Q :=
  match JsObject.get mergedObj k with
  | Some l => l
  | None => []
  end.

(** [keys.length === 1 ? avgRates[keys[0]] : avgRates], the last line of
    [avg]. *)
Definition collapsed (avgRates : JsObject.t Q) : Value :=
  match avgRates with
  | [(_, v)] => VNum v
  | _ => VRates (map (fun kv => (fst kv, Scalar (snd kv))) avgRates)
  end.

(** "[decimalPlaces] is left out or is an integer from 0 to 100", the
    digit counts [toFixed] accepts. *)
Definition DigitsInRange (decimalPlaces : JsArg) : Prop :=
  decimalPlaces = Undefined
  \/ exists n : Z, 0 <= n <= 100 /\ decimalPlaces = Num (inject_Z n).

(** One call on the instance, or one change by the caller to the array
    the instance holds, and a run of them whose exceptions the caller
    catches: the instance left by a call is the one the next call
    finds. *)
Inductive Call : Type :=
| CallAt (date : Date)
| CallLatest
| CallFrom (date : Date)
| CallTo (date : Date)
| CallBase (currency : string)
| CallSymbols (arg : SymbolsArg)
| CallSymbolsHeld
| CallerWrites (content : list string)
| CallUrl
| CallFetch
| CallAvg (decimalPlaces : JsArg).

Definition call (table : list string) (toUpperCase : string -> string)
           (c : Call) : M unit :=
  match c with
  | CallAt date => at_ date
  | CallLatest => latest
  | CallFrom date => from date
  | CallTo date => to date
  | CallBase currency => base table toUpperCase currency
  | CallSymbols arg => symbols table toUpperCase arg
  | CallSymbolsHeld => symbols_held table toUpperCase
  | CallerWrites content => caller_writes content
  | CallUrl => (_ <- url ;; ret tt)
  | CallFetch => (_ <- fetch ;; ret tt)
  | CallAvg decimalPlaces => (_ <- avg decimalPlaces ;; ret tt)
  end.

Definition run_calls (table : list string) (toUpperCase : string -> string)
           (cs : list Call) (w : World) : World :=
  fold_left (fun w c => snd (call table toUpperCase c w)) cs w.

(** "The base the instance holds, if any, is a name of the table and an
    upper-cased string". *)
Definition holds_known_base (table : list string)
           (toUpperCase : string -> string) (self : ExchangeRatesApi) : Prop :=
  match _base self with
  | Some b => In b table /\ exists currency, b = toUpperCase currency
  | None => True
  end.

(* ------------------------------------------------------------------ *)
(** ** Running the monad *)

Ltac js_unfold :=
  unfold url, fetch, _validate, _buildUrl, _isHistoryRequest, at_, latest,
    from, to, base, _validateCurrency, throw_if, catch, bind, ret, throw,
    getThis, modifyThis in *.

Ltac js_run := js_unfold; cbn [fst snd this network requests] in *.

Lemma has_key_In (table : list string) (k : string) :
  JsObject.has_key table k = true <-> In k table.
Proof.
  unfold JsObject.has_key. rewrite existsb_exists. split.
  - intros [x [Hin Heq]]. apply String.eqb_eq in Heq. now subst.
  - intros Hin. exists k. split; [assumption | apply String.eqb_refl].
Qed.

Lemma upper_char_idem (c : ascii) :
  JsString.upper_char (JsString.upper_char c) = JsString.upper_char c.
Proof.
  destruct c as [[] [] [] [] [] [] [] []]; reflexivity.
Qed.

Lemma toUpperCase_ascii_idem (s : string) :
  JsString.toUpperCase_ascii (JsString.toUpperCase_ascii s)
  = JsString.toUpperCase_ascii s.
Proof.
  induction s as [| c r IH]; simpl; [reflexivity |].
  now rewrite upper_char_idem, IH.
Qed.

Lemma isAfter_irrefl (d : Date) : DateFns.isAfter d d = false.
Proof.
  unfold DateFns.isAfter.
  rewrite !Z.ltb_irrefl, !Z.eqb_refl. reflexivity.
Qed.

(** The year is monotone along the order of [isAfter]. *)
Lemma not_isAfter_getYear (a b : Date) :
  DateFns.isAfter a b = false -> DateFns.getYear a <= DateFns.getYear b.
Proof.
  unfold DateFns.isAfter, DateFns.getYear. intros H.
  apply orb_false_iff in H. destruct H as [H _].
  apply Z.ltb_ge in H. exact H.
Qed.

(** [_validate] only reads: the world it leaves is the world it found. *)
Lemma _validate_reads (w : World) : snd (_validate w) = w.
Proof.
  js_run. destruct (_to (this w)); [| destruct (from_before_1999 (this w)); reflexivity].
  destruct (from_is_latest (this w)); [reflexivity |].
  destruct (from_isAfter_to (this w)); [reflexivity |].
  destruct (from_before_1999 (this w)); reflexivity.
Qed.

Lemma string_app_assoc (a b c : string) : (a ++ b) ++ c = a ++ b ++ c.
Proof.
  induction a as [| x a IH]; simpl; [reflexivity | now rewrite IH].
Qed.

Lemma string_length_app (a b : string) :
  String.length (a ++ b) = (String.length a + String.length b)%nat.
Proof.
  induction a as [| x a IH]; simpl; [reflexivity | now rewrite IH].
Qed.

Lemma encode_app (a b : string) :
  JsString.encodeURIComponent (a ++ b)
  = JsString.encodeURIComponent a ++ JsString.encodeURIComponent b.
Proof.
  induction a as [| x a IH]; simpl; [reflexivity |].
  destruct (JsString.unreserved x); simpl; now rewrite IH.
Qed.

Lemma plain_encode (s : string) :
  plain s -> JsString.encodeURIComponent s = s.
Proof.
  induction s as [| c r IH]; simpl; [reflexivity |].
  intros [Hc Hr]. rewrite Hc. now rewrite IH.
Qed.

Lemma plain_app (a b : string) : plain a -> plain b -> plain (a ++ b).
Proof.
  induction a as [| c r IH]; simpl; [tauto |].
  intros [Hc Hr] Hb. split; [assumption | now apply IH].
Qed.

Lemma plain_repeat_zero (n : nat) : plain (JsString.repeat_char "0" n).
Proof.
  induction n as [| n IH]; simpl; [exact I | split; [reflexivity | exact IH]].
Qed.

Lemma plain_string_of_uint (d : Decimal.uint) :
  plain (NilEmpty.string_of_uint d).
Proof.
  induction d; simpl; try exact I; (split; [reflexivity | assumption]).
Qed.

Lemma plain_of_Z (z : Z) : plain (JsString.of_Z z).
Proof.
  unfold JsString.of_Z, NilZero.string_of_int.
  destruct (Z.to_int z) as [d | d]; unfold NilZero.string_of_uint.
  - destruct d; try (split; [reflexivity |]); try exact I;
      apply plain_string_of_uint.
  - split; [reflexivity |].
    destruct d; try (split; [reflexivity |]); try exact I;
      apply plain_string_of_uint.
Qed.

Lemma plain_formatDate (d : Date) : plain (Utils.formatDate d).
Proof.
  unfold Utils.formatDate, JsString.padStart.
  repeat apply plain_app;
    first [ apply plain_repeat_zero | apply plain_of_Z
          | split; [reflexivity | exact I] ].
Qed.

Lemma encode_formatDate (d : Date) :
  JsString.encodeURIComponent (Utils.formatDate d) = Utils.formatDate d.
Proof. apply plain_encode, plain_formatDate. Qed.

(** [_buildUrl] returns the URL of the specification and only reads. *)
Lemma _buildUrl_url_of (w : World) :
  _buildUrl w = (Returned (UrlSpec.url_of (this w)), w).
Proof.
  destruct w as [[u k b s f t] n r].
  js_run.
  unfold UrlSpec.url_of, UrlSpec.path_segment, UrlSpec.range_params,
    common_params, QueryStringBuilder.addParam, QueryStringBuilder.new.
  cbn [_apiBaseUrl _accessKey _base _symbols _from _to].
  destruct t as [t |]; destruct f as [| f];
    rewrite ?encode_formatDate;
    (destruct b as [b |]; [destruct (JsString.truthy b) |]);
    destruct s as [s |]; destruct (JsString.truthy k);
    cbn [app]; rewrite ?string_app_assoc; reflexivity.
Qed.

(** [_validate] as a decision list: the first rule violated is the one
    reported, and the world is left as found. *)
Lemma _validate_cases (w : World) :
  _validate w =
  (match _to (this w) with
   | Some _ =>
       if from_is_latest (this w) then Thrown InvalidDateRange
       else if from_isAfter_to (this w) then Thrown InvalidDateOrder
       else if from_before_1999 (this w) then Thrown UnsupportedHistoricalYear
       else Returned tt
   | None =>
       if from_before_1999 (this w) then Thrown UnsupportedHistoricalYear
       else Returned tt
   end, w).
Proof.
  js_run. destruct (_to (this w)).
  - destruct (from_is_latest (this w)); [reflexivity |].
    destruct (from_isAfter_to (this w)); [reflexivity |].
    destruct (from_before_1999 (this w)); reflexivity.
  - destruct (from_before_1999 (this w)); reflexivity.
Qed.

Lemma url_cases (w : World) :
  url w = match fst (_validate w) with
          | Returned _ => (Returned (UrlSpec.url_of (this w)), w)
          | Thrown e => (Thrown e, w)
          end.
Proof.
  unfold url, bind. rewrite _validate_cases.
  destruct (_to (this w)); cbn [fst];
    repeat match goal with
      | |- context [if ?c then _ else _] => destruct c
      end; try reflexivity; apply _buildUrl_url_of.
Qed.

(** A setter followed by a reader: the reader runs in the updated world. *)
Lemma modifyThis_then {A} (f : ExchangeRatesApi -> ExchangeRatesApi)
      (m : M A) (w : World) :
  (modifyThis f ;; m) w = m (mkWorld (f (this w)) (network w) (requests w)).
Proof. reflexivity. Qed.

(* ------------------------------------------------------------------ *)
(** ** The date selector *)

(** C10: [at], [from] and [latest] write the [_from] field only; [_to],
    [_base], [_symbols] (and the endpoint, the key, the server and the
    request log) are left as they were.  Hence after [to(date)] a later
    [at(date2)] leaves a history request, not a single-date one. *)
Theorem setters_write_from_only (w : World) (date date2 : Date) :
  (fst (at_ date w) = Returned tt
   /\ same_except_from w (snd (at_ date w))
   /\ _from (this (snd (at_ date w))) = FromOn date)
  /\ (fst (from date w) = Returned tt
      /\ same_except_from w (snd (from date w))
      /\ _from (this (snd (from date w))) = FromOn date)
  /\ (fst (latest w) = Returned tt
      /\ same_except_from w (snd (latest w))
      /\ _from (this (snd (latest w))) = FromLatest)
  /\ fst ((to date ;; at_ date2 ;; _isHistoryRequest) w) = Returned true
  /\ _to (this (snd ((to date ;; at_ date2) w))) = Some date
  /\ _from (this (snd ((to date ;; at_ date2) w))) = FromOn date2.
Proof.
  unfold same_except_from. js_run. repeat split; reflexivity.
Qed.

(** C3, as stated, fails: on a selector whose [_to] is set, [latest()]
    leaves a history request, which [url] rejects and [_buildUrl] sends to
    [history]. *)
Lemma latest_keeps_range_counterexample :
  let w := Fixtures.world_of (Fixtures.range Fixtures.jan_2020 Fixtures.end_jan_2020) in
  fst ((latest ;; _isHistoryRequest) w) <> Returned false
  /\ fst ((latest ;; url) w) = Thrown InvalidDateRange
  /\ fst ((latest ;; _buildUrl) w)
     = Returned "https://api.example/history?start_at=&end_at=2020-01-31&access_key=KEY".
Proof.
  cbv zeta. split; [| split].
  - vm_compute. discriminate.
  - vm_compute. reflexivity.
  - vm_compute. reflexivity.
Qed.

(** C3, amended: from every selector whose [_to] is not set (Latest,
    SingleDate, PendingRange), [latest()] moves to Latest and the next URL
    is a latest request with path segment [latest]; when [_to] is set
    (Range), [latest()] leaves it set, the request stays a history request
    and validation rejects it with InvalidDateRange. *)
Theorem latest_moves_to_latest (w : World) :
  _from (this (snd (latest w))) = FromLatest
  /\ (_to (this w) = None ->
        fst ((latest ;; _isHistoryRequest) w) = Returned false
        /\ fst ((latest ;; url) w)
           = Returned (_apiBaseUrl (this w) ++ "/latest"
                       ++ QueryStringBuilder.toString (common_params (this w))))
  /\ (_to (this w) <> None ->
        fst ((latest ;; _isHistoryRequest) w) = Returned true
        /\ fst ((latest ;; url) w) = Thrown InvalidDateRange).
Proof.
  unfold latest. rewrite !modifyThis_then.
  split; [reflexivity |]. split.
  - intros Ht. rewrite url_cases, _validate_cases. js_run.
    cbn [with_from _to _from from_is_latest from_before_1999].
    rewrite Ht. cbn [fst]. split; [reflexivity |].
    unfold UrlSpec.url_of, UrlSpec.path_segment, UrlSpec.range_params.
    cbn [with_from _to _from _apiBaseUrl]. rewrite Ht. reflexivity.
  - intros Ht. rewrite url_cases, _validate_cases. js_run.
    cbn [with_from _to _from from_is_latest].
    destruct (_to (this w)); [| congruence]. split; reflexivity.
Qed.

Lemma latest_moves_to_latest_witness :
  fst ((latest ;; url)
         (Fixtures.world_of (with_from (FromOn Fixtures.jan_2020) Fixtures.client)))
  = Returned "https://api.example/latest?access_key=KEY"
  /\ fst ((latest ;; url)
            (Fixtures.world_of
               (Fixtures.range Fixtures.jan_2020 Fixtures.end_jan_2020)))
     = Thrown InvalidDateRange.
Proof.
  split.
  - destruct (latest_moves_to_latest
                (Fixtures.world_of
                   (with_from (FromOn Fixtures.jan_2020) Fixtures.client)))
      as [_ [Hnone _]].
    destruct (Hnone eq_refl) as [_ Hurl]. rewrite Hurl. reflexivity.
  - destruct (latest_moves_to_latest
                (Fixtures.world_of
                   (Fixtures.range Fixtures.jan_2020 Fixtures.end_jan_2020)))
      as [_ [_ Hsome]].
    apply Hsome. discriminate.
Defined.

(* ------------------------------------------------------------------ *)
(** ** Validation *)

(** C7: on a range request, [_validate] throws InvalidDateRange when
    [_from] is still ['latest'], InvalidDateOrder when [_from] is after
    [_to], and returns when [_from] equals [_to] with a year of 1999 or
    later. *)
Theorem validate_range (w : World) (t : Date) (Hto : _to (this w) = Some t) :
  (_from (this w) = FromLatest -> _validate w = (Thrown InvalidDateRange, w))
  /\ (forall f, _from (this w) = FromOn f -> DateFns.isAfter f t = true ->
        _validate w = (Thrown InvalidDateOrder, w))
  /\ (_from (this w) = FromOn t -> 1999 <= DateFns.getYear t ->
        _validate w = (Returned tt, w)).
Proof.
  rewrite _validate_cases, Hto.
  unfold from_is_latest, from_isAfter_to, from_before_1999. rewrite Hto.
  repeat split.
  - intros ->. reflexivity.
  - intros f -> Hafter. rewrite Hafter. reflexivity.
  - intros -> Hyear. rewrite isAfter_irrefl.
    apply Z.ltb_ge in Hyear. rewrite Hyear. reflexivity.
Qed.

Lemma validate_range_witness :
  let open := Fixtures.world_of (with_to (Some Fixtures.jan_2020) Fixtures.client) in
  let swapped :=
    Fixtures.world_of (Fixtures.range Fixtures.end_jan_2020 Fixtures.jan_2020) in
  let same := Fixtures.world_of (Fixtures.range Fixtures.jan_2020 Fixtures.jan_2020) in
  _validate open = (Thrown InvalidDateRange, open)
  /\ _validate swapped = (Thrown InvalidDateOrder, swapped)
  /\ _validate same = (Returned tt, same).
Proof.
  cbv zeta. split; [| split].
  - apply (proj1 (validate_range
                      (Fixtures.world_of
                         (with_to (Some Fixtures.jan_2020) Fixtures.client))
                      Fixtures.jan_2020 eq_refl)).
    reflexivity.
  - apply (proj1 (proj2 (validate_range
                      (Fixtures.world_of
                         (Fixtures.range Fixtures.end_jan_2020 Fixtures.jan_2020))
                      Fixtures.jan_2020 eq_refl)) Fixtures.end_jan_2020).
    + reflexivity.
    + reflexivity.
  - apply (proj2 (proj2 (validate_range
                      (Fixtures.world_of
                         (Fixtures.range Fixtures.jan_2020 Fixtures.jan_2020))
                      Fixtures.jan_2020 eq_refl))).
    + reflexivity.
    + vm_compute. discriminate.
Defined.

(** C2, as stated, fails: a range whose [_to] lies in 1998 and whose
    [_from] lies after it is rejected with InvalidDateOrder, and a range
    left at ['latest'] with InvalidDateRange, not with
    UnsupportedHistoricalYear. *)
Lemma year_before_1999_counterexample :
  let swapped :=
    Fixtures.world_of (Fixtures.range Fixtures.jan_2020 Fixtures.dec_1998) in
  let open := Fixtures.world_of (with_to (Some Fixtures.dec_1998) Fixtures.client) in
  has_date_before_1999 (this swapped) = true
  /\ fst (_validate swapped) = Thrown InvalidDateOrder
  /\ fst (_validate swapped) <> Thrown UnsupportedHistoricalYear
  /\ has_date_before_1999 (this open) = true
  /\ fst (_validate open) = Thrown InvalidDateRange
  /\ fst (_validate open) <> Thrown UnsupportedHistoricalYear.
Proof.
  cbv zeta. repeat split; try (vm_compute; reflexivity);
    vm_compute; discriminate.
Qed.

(** C2, amended: whenever a concrete date of the configuration has a year
    before 1999, [_validate] throws.  It throws UnsupportedHistoricalYear
    unless a range rule is violated first: a range left at ['latest']
    throws InvalidDateRange, a range whose [_from] is after [_to] throws
    InvalidDateOrder. *)
Theorem validate_year_before_1999 (w : World)
        (Hold : has_date_before_1999 (this w) = true) :
  snd (_validate w) = w
  /\ is_returned (fst (_validate w)) = false
  /\ ((_to (this w) = None \/ from_is_latest (this w) || from_isAfter_to (this w) = false) ->
        fst (_validate w) = Thrown UnsupportedHistoricalYear)
  /\ (_to (this w) <> None -> from_is_latest (this w) = true ->
        fst (_validate w) = Thrown InvalidDateRange)
  /\ (_to (this w) <> None -> from_is_latest (this w) = false ->
      from_isAfter_to (this w) = true ->
        fst (_validate w) = Thrown InvalidDateOrder).
Proof.
  assert (Hkey : _to (this w) = None \/ from_is_latest (this w) || from_isAfter_to (this w) = false
                 -> from_before_1999 (this w) = true).
  { unfold has_date_before_1999, from_is_latest, from_isAfter_to,
      from_before_1999 in *.
    destruct (_from (this w)) as [| f]; destruct (_to (this w)) as [t |];
      cbn in *; intros [H | H]; try congruence.
    - apply orb_true_iff in Hold. destruct Hold as [H1 | H1]; [assumption |].
      apply not_isAfter_getYear in H. unfold DateFns.getYear in *.
      apply Z.ltb_lt in H1. apply Z.ltb_lt. lia.
    - now rewrite orb_false_r in Hold.
    - now rewrite orb_false_r in Hold. }
  rewrite _validate_cases. cbn [fst snd].
  split; [reflexivity |]. split; [| split; [| split]].
  - destruct (_to (this w)) as [t |].
    + destruct (from_is_latest (this w)); [reflexivity |].
      destruct (from_isAfter_to (this w)); [reflexivity |].
      rewrite Hkey; [reflexivity | now right].
    + rewrite Hkey; [reflexivity | now left].
  - intros H. rewrite (Hkey H). destruct H as [H | H].
    + rewrite H. reflexivity.
    + apply orb_false_iff in H. destruct H as [-> ->].
      destruct (_to (this w)); reflexivity.
  - intros Ht ->. destruct (_to (this w)); [reflexivity | congruence].
  - intros Ht -> ->. destruct (_to (this w)); [reflexivity | congruence].
Qed.

Lemma validate_year_before_1999_witness :
  let w := Fixtures.world_of (with_from (FromOn Fixtures.dec_1998) Fixtures.client) in
  is_returned (fst (_validate w)) = false
  /\ fst (_validate w) = Thrown UnsupportedHistoricalYear.
Proof.
  cbv zeta.
  pose proof (validate_year_before_1999
                (Fixtures.world_of
                   (with_from (FromOn Fixtures.dec_1998) Fixtures.client))
                eq_refl) as [_ [Hfail [Hyear _]]].
  split; [exact Hfail | apply Hyear; left; reflexivity].
Defined.

(* ------------------------------------------------------------------ *)
(** ** Currency codes *)

Lemma base_cases (table : list string) (toUpperCase : string -> string)
      (currency : string) (w : World) :
  base table toUpperCase currency w =
  if JsObject.has_key table (toUpperCase currency)
  then (Returned tt,
        mkWorld (with_base (Some (toUpperCase currency)) (this w))
          (network w) (requests w))
  else (Thrown (InvalidCurrency (toUpperCase currency)), w).
Proof.
  js_run. destruct (JsObject.has_key table (toUpperCase currency));
    reflexivity.
Qed.

(** C6: for every string, [base(currency)] returns exactly when the
    upper-cased string is a key of the currency table; it then stores the
    upper-cased code and touches nothing else; otherwise it throws
    InvalidCurrency and stores nothing.  Inputs with the same upper-case
    form behave the same: an input and its upper-case form, ["usd"] and
    ["USD"]. *)
Theorem base_iff_known_currency (table : list string)
        (toUpperCase : string -> string) (currency : string) (w : World) :
  (is_returned (fst (base table toUpperCase currency w)) = true
   <-> In (toUpperCase currency) table)
  /\ (In (toUpperCase currency) table ->
        base table toUpperCase currency w
        = (Returned tt,
           mkWorld (with_base (Some (toUpperCase currency)) (this w))
             (network w) (requests w)))
  /\ (~ In (toUpperCase currency) table ->
        base table toUpperCase currency w
        = (Thrown (InvalidCurrency (toUpperCase currency)), w))
  /\ (forall other : string,
        toUpperCase other = toUpperCase currency ->
        base table toUpperCase other w = base table toUpperCase currency w)
  /\ (toUpperCase (toUpperCase currency) = toUpperCase currency ->
        base table toUpperCase (toUpperCase currency) w
        = base table toUpperCase currency w)
  /\ (toUpperCase "usd" = toUpperCase "USD" ->
        base table toUpperCase "usd" w = base table toUpperCase "USD" w).
Proof.
  assert (Hsame : forall a b : string,
            toUpperCase a = toUpperCase b ->
            base table toUpperCase a w = base table toUpperCase b w).
  { intros a b Hab. rewrite !base_cases, Hab. reflexivity. }
  pose proof (has_key_In table (toUpperCase currency)) as Hk.
  split; [| split; [| split; [| split; [| split]]]].
  - rewrite base_cases.
    destruct (JsObject.has_key table (toUpperCase currency)); cbn [fst is_returned].
    + split; [intros _; apply Hk; reflexivity | reflexivity].
    + split; [discriminate | intros Hin; apply Hk in Hin; discriminate].
  - intros Hin. rewrite base_cases. apply Hk in Hin. rewrite Hin. reflexivity.
  - intros Hout. rewrite base_cases.
    destruct (JsObject.has_key table (toUpperCase currency)); [| reflexivity].
    exfalso. apply Hout, Hk. reflexivity.
  - intros other Ho. apply Hsame, Ho.
  - intros Hi. apply Hsame, Hi.
  - apply Hsame.
Qed.

Lemma base_iff_known_currency_witness :
  let w := Fixtures.world_of Fixtures.client in
  _base (this (snd (base Fixtures.table JsString.toUpperCase_ascii "uSd" w)))
  = Some "USD"
  /\ fst (base Fixtures.table JsString.toUpperCase_ascii "btc" w)
     = Thrown (InvalidCurrency "BTC")
  /\ base Fixtures.table JsString.toUpperCase_ascii "usd" w
     = base Fixtures.table JsString.toUpperCase_ascii "USD" w.
Proof.
  cbv zeta.
  pose proof (base_iff_known_currency Fixtures.table
                JsString.toUpperCase_ascii "uSd"
                (Fixtures.world_of Fixtures.client))
    as [_ [Hok [_ [_ [_ Hcase]]]]].
  pose proof (base_iff_known_currency Fixtures.table
                JsString.toUpperCase_ascii "btc"
                (Fixtures.world_of Fixtures.client)) as [_ [_ [Hko _]]].
  split; [| split].
  - rewrite Hok; [reflexivity |]. right. left. reflexivity.
  - rewrite Hko; [reflexivity |].
    intros [H | [H | [H | []]]]; discriminate H.
  - apply Hcase. reflexivity.
Defined.

(* ------------------------------------------------------------------ *)
(** ** The URL *)

(** C4: on a valid configuration [_buildUrl] returns a string that depends
    on the configuration only, leaves the world as it found it, and
    returns the same string when run again; so does the [url] getter. *)
Theorem buildUrl_deterministic (w : World)
        (Hvalid : fst (_validate w) = Returned tt) :
  exists s : string,
    _buildUrl w = (Returned s, w)
    /\ (u1 <- _buildUrl ;; u2 <- _buildUrl ;; ret (u1, u2)) w
       = (Returned (s, s), w)
    /\ (u1 <- url ;; u2 <- url ;; ret (u1, u2)) w = (Returned (s, s), w)
    /\ (forall w' : World, this w' = this w -> fst (_buildUrl w') = Returned s).
Proof.
  exists (UrlSpec.url_of (this w)).
  assert (Hurl : url w = (Returned (UrlSpec.url_of (this w)), w)).
  { rewrite url_cases, Hvalid. reflexivity. }
  split; [apply _buildUrl_url_of |]. split; [| split].
  - unfold bind at 1. rewrite _buildUrl_url_of.
    unfold bind. rewrite _buildUrl_url_of. reflexivity.
  - unfold bind at 1. rewrite Hurl. unfold bind. rewrite Hurl. reflexivity.
  - intros w' Hw. rewrite _buildUrl_url_of, Hw. reflexivity.
Qed.

Lemma buildUrl_deterministic_witness :
  exists s : string,
    (u1 <- url ;; u2 <- url ;; ret (u1, u2)) Fixtures.history_world
    = (Returned (s, s), Fixtures.history_world).
Proof.
  destruct (buildUrl_deterministic Fixtures.history_world eq_refl)
    as [s [_ [_ [H _]]]].
  exists s. exact H.
Defined.

(** C8, as stated, fails: with a [to] date set and [from] still
    ['latest'], [_buildUrl] builds a history URL whose [start_at] is
    empty, not a date. *)
Lemma buildUrl_empty_start_counterexample :
  let w := Fixtures.world_of (with_to (Some Fixtures.end_jan_2020) Fixtures.client) in
  fst (_buildUrl w)
  = Returned "https://api.example/history?start_at=&end_at=2020-01-31&access_key=KEY"
  /\ forall f : Date,
       fst (_buildUrl w)
       <> Returned ("https://api.example/history?start_at=" ++ Utils.formatDate f
                    ++ "&end_at=2020-01-31&access_key=KEY").
Proof.
  cbv zeta.
  assert (H0 : fst (_buildUrl
                      (Fixtures.world_of
                         (with_to (Some Fixtures.end_jan_2020) Fixtures.client)))
               = Returned "https://api.example/history?start_at=&end_at=2020-01-31&access_key=KEY")
    by (vm_compute; reflexivity).
  split; [exact H0 |].
  intros f H. rewrite H0 in H. injection H as H.
  apply (f_equal String.length) in H.
  unfold Utils.formatDate in H. rewrite !string_length_app in H.
  cbn [String.length] in H. lia.
Qed.

(** C8, amended: the URL is the endpoint, a slash and a path segment, then
    the query.  With a [to] date set the segment is [history] and the
    query starts with [start_at] and [end_at]: [end_at] is the [to] date
    as [YYYY-MM-DD], [start_at] the [from] date as [YYYY-MM-DD], or empty
    when [from] is still ['latest'], a configuration that validation
    rejects, so that the [url] getter never returns that URL.  Otherwise
    the segment is [latest] when no date is set, or the date as
    [YYYY-MM-DD].  Then come, in this order and each only if set, [base]
    (the upper-cased code the setter stored), [symbols] (joined by a comma
    that is not encoded) and [access_key]. *)
Theorem buildUrl_shape (w : World) :
  let self := this w in
  let rest := common_params self in
  snd (_buildUrl w) = w
  /\ match _to self, _from self with
     | Some t, FromOn f =>
         fst (_buildUrl w)
         = Returned (_apiBaseUrl self ++ "/history"
                     ++ QueryStringBuilder.toString
                          ([("start_at", Utils.formatDate f);
                            ("end_at", Utils.formatDate t)] ++ rest)%list)
     | Some t, FromLatest =>
         fst (_buildUrl w)
         = Returned (_apiBaseUrl self ++ "/history"
                     ++ QueryStringBuilder.toString
                          ([("start_at", "");
                            ("end_at", Utils.formatDate t)] ++ rest)%list)
         /\ fst (url w) = Thrown InvalidDateRange
     | None, FromLatest =>
         fst (_buildUrl w)
         = Returned (_apiBaseUrl self ++ "/latest"
                     ++ QueryStringBuilder.toString rest)
     | None, FromOn d =>
         fst (_buildUrl w)
         = Returned (_apiBaseUrl self ++ "/" ++ Utils.formatDate d
                     ++ QueryStringBuilder.toString rest)
     end
  /\ QueryStringBuilder.param_keys rest
     = ((if match _base self with
            | Some b => JsString.truthy b
            | None => false
            end then ["base"] else [])
        ++ (if match _symbols self with Some _ => true | None => false end
            then ["symbols"] else [])
        ++ (if JsString.truthy (_accessKey self) then ["access_key"] else []))%list
  /\ (forall table toUpperCase currency,
        is_returned (fst (base table toUpperCase currency w)) = true ->
        _base (this (snd (base table toUpperCase currency w)))
        = Some (toUpperCase currency)).
Proof.
  cbv zeta. rewrite _buildUrl_url_of. cbn [fst snd].
  split; [reflexivity |]. split; [| split].
  - rewrite url_cases, _validate_cases.
    unfold UrlSpec.url_of, UrlSpec.path_segment, UrlSpec.range_params,
      from_is_latest.
    destruct (_to (this w)) as [t |]; destruct (_from (this w)) as [| f];
      try reflexivity.
    split; reflexivity.
  - unfold common_params, QueryStringBuilder.param_keys.
    destruct (_base (this w)) as [b |]; [destruct (JsString.truthy b) |];
      destruct (_symbols (this w)); destruct (JsString.truthy (_accessKey (this w)));
      reflexivity.
  - intros table toUpperCase currency. rewrite base_cases.
    destruct (JsObject.has_key table (toUpperCase currency));
      [reflexivity | discriminate].
Qed.

Lemma buildUrl_shape_witness :
  fst (_buildUrl Fixtures.history_world)
  = Returned "https://api.example/history?start_at=2021-01-01&end_at=2021-01-02&access_key=KEY"
  /\ _base (this (snd (base Fixtures.table JsString.toUpperCase_ascii "gbp"
                         Fixtures.history_world)))
     = Some "GBP".
Proof.
  destruct (buildUrl_shape Fixtures.history_world) as [_ [Hurl [_ Hbase]]].
  split.
  - exact Hurl.
  - apply (Hbase Fixtures.table JsString.toUpperCase_ascii "gbp"). reflexivity.
Defined.

Example buildUrl_full_range :
  fst ((base Fixtures.table JsString.toUpperCase_ascii "usd" ;;
        symbols Fixtures.table JsString.toUpperCase_ascii (ManySymbols ["gbp"; "eur"]) ;;
        from Fixtures.jan_2020 ;; to Fixtures.end_jan_2020 ;;
        url) (Fixtures.world_of Fixtures.client))
  = Returned "https://api.example/history?start_at=2020-01-01&end_at=2020-01-31&base=USD&symbols=GBP,EUR&access_key=KEY".
Proof. vm_compute. reflexivity. Qed.

Example buildUrl_latest_bare :
  fst (url (Fixtures.world_of (fresh "https://api.example" "")))
  = Returned "https://api.example/latest".
Proof. vm_compute. reflexivity. Qed.

Example buildUrl_single_date :
  fst ((at_ (mkDate 2019 7 4) ;; symbols Fixtures.table JsString.toUpperCase_ascii (OneSymbol "gbp") ;; url)
         (Fixtures.world_of Fixtures.client))
  = Returned "https://api.example/2019-07-04?symbols=GBP&access_key=KEY".
Proof. vm_compute. reflexivity. Qed.

(* ------------------------------------------------------------------ *)
(** ** Fetching *)

(** [fetch] step by step: validation first, then one request to the URL of
    the configuration, then the reshaping of the answer; every failure
    after validation is reported as FetchFailed. *)
Lemma fetch_cases (w : World) :
  fetch w =
  match fst (_validate w) with
  | Thrown e => (Thrown e, w)
  | Returned _ =>
      let u := UrlSpec.url_of (this w) in
      (match network w u with
       | Resolved r =>
           if status r =? 200 then
             match data_rates r with
             | None => Thrown (FetchFailed keys_of_undefined)
             | Some [(_, rate)] => Returned (Value_of_Rate rate)
             | Some rates => Returned (VRates rates)
             end
           else Thrown (FetchFailed
                          ("API returned a bad response (HTTP "
                           ++ JsString.of_Z (status r) ++ ")"))
       | Rejected message (Some response_error) =>
           Thrown (FetchFailed response_error)
       | Rejected message None => Thrown (FetchFailed message)
       end,
       mkWorld (this w) (network w) (requests w ++ [u])%list)
  end.
Proof.
  unfold fetch. unfold bind at 1.
  pose proof (_validate_reads w) as Hw.
  destruct (_validate w) as [[[] | e] w0]; cbn [fst snd] in *; subst w0;
    [| reflexivity].
  unfold bind at 1. rewrite _buildUrl_url_of.
  unfold catch, bind, axios_get, throw_if, throw, ret. cbn [this network requests].
  destruct (network w (UrlSpec.url_of (this w))) as [r | m [e |]];
    try reflexivity.
  destruct (status r =? 200); cbn [negb]; [| reflexivity].
  destruct (data_rates r) as [[| [k v] [| kv rest]] |]; reflexivity.
Qed.

(** C5: when the request succeeds with status 200, a [rates] object with
    exactly one key makes [fetch] return the value under that key, one
    with two or more keys makes it return the whole mapping. *)
Theorem fetch_collapses_single_key (w : World) (u : string) (rates : Rates)
        (Hvalid : fst (_validate w) = Returned tt)
        (Hurl : fst (_buildUrl w) = Returned u)
        (Hnet : network w u = Resolved (mkResponse 200 (Some rates))) :
  (forall k rate, rates = [(k, rate)] ->
     fst (fetch w) = Returned (Value_of_Rate rate))
  /\ ((2 <= List.length rates)%nat -> fst (fetch w) = Returned (VRates rates))
  /\ requests (snd (fetch w)) = (requests w ++ [u])%list.
Proof.
  rewrite _buildUrl_url_of in Hurl. cbn [fst] in Hurl.
  injection Hurl as <-.
  rewrite fetch_cases, Hvalid. cbv zeta. rewrite Hnet.
  cbn [fst snd status data_rates requests Z.eqb Pos.eqb].
  repeat split.
  - intros k rate ->. reflexivity.
  - intros Hlen. destruct rates as [| [k1 v1] [| kv2 rest]];
      cbn [List.length] in Hlen; try lia; reflexivity.
Qed.

Lemma fetch_collapses_single_key_witness :
  fst (fetch (mkWorld Fixtures.client (Fixtures.serving Fixtures.one_rate) []))
  = Returned (VNum 1.1%Q)
  /\ fst (fetch (mkWorld Fixtures.client (Fixtures.serving Fixtures.two_rates) []))
     = Returned (VRates [("USD", Scalar 1.1%Q); ("GBP", Scalar 0.9%Q)]).
Proof.
  split.
  - apply (proj1 (fetch_collapses_single_key
                    (mkWorld Fixtures.client (Fixtures.serving Fixtures.one_rate) [])
                    "https://api.example/latest?access_key=KEY"
                    Fixtures.one_rate eq_refl eq_refl eq_refl)
             "USD" (Scalar 1.1%Q) eq_refl).
  - apply (proj1 (proj2 (fetch_collapses_single_key
                    (mkWorld Fixtures.client (Fixtures.serving Fixtures.two_rates) [])
                    "https://api.example/latest?access_key=KEY"
                    Fixtures.two_rates eq_refl eq_refl eq_refl))).
    cbn. lia.
Defined.

Example fetch_bad_status :
  fst (fetch (mkWorld Fixtures.client
                (fun _ => Resolved (mkResponse 204 None)) []))
  = Thrown (FetchFailed "API returned a bad response (HTTP 204)").
Proof. vm_compute. reflexivity. Qed.

Example fetch_single_date_of_range :
  fst (fetch (mkWorld (Fixtures.range Fixtures.jan_2020 Fixtures.jan_2020)
                (Fixtures.serving
                   [("2020-01-01", PerCurrency [("USD", 1.1%Q); ("GBP", 0.9%Q)])])
                []))
  = Returned (VRates [("USD", Scalar 1.1%Q); ("GBP", Scalar 0.9%Q)]).
Proof. vm_compute. reflexivity. Qed.

(* ------------------------------------------------------------------ *)
(** ** Averaging *)

Lemma isInteger_iff (q : Q) :
  JsNumber.isInteger (Num q) = true <-> exists n : Z, (q == inject_Z n)%Q.
Proof.
  unfold JsNumber.isInteger. rewrite Pos.eqb_eq. split.
  - intros Hden. exists (Qnum (Qred q)).
    rewrite <- (Qred_correct q) at 1.
    unfold Qeq, inject_Z. cbn [Qnum Qden]. rewrite Hden. reflexivity.
  - intros [n Hn].
    rewrite (Qred_complete _ _ Hn).
    pose proof (Qred_correct (inject_Z n)) as Heq.
    pose proof (gcd_Qred (inject_Z n)) as Hgcd.
    destruct (Qred (inject_Z n)) as [a d].
    unfold Qeq, inject_Z in Heq. cbn [Qnum Qden] in *.
    rewrite Z.mul_1_r in Heq. subst a.
    rewrite (Z.mul_comm n), Z.gcd_comm, Z.gcd_mul_diag_l in Hgcd by lia.
    lia.
Qed.

Lemma nonNegativeInteger_iff (a : JsArg) :
  NonNegativeInteger a
  <-> JsNumber.isInteger a = true /\ JsNumber.lt_zero a = false.
Proof.
  destruct a as [| | q | | neg]; cbn [NonNegativeInteger];
    try (split; [contradiction | intros [H _]; discriminate H]).
  rewrite isInteger_iff. unfold JsNumber.lt_zero. rewrite Z.ltb_ge.
  split.
  - intros [n [Hn Hq]]. split; [now exists n |].
    unfold Qeq, inject_Z in Hq. cbn [Qnum Qden] in Hq. nia.
  - intros [[n Hq] Hpos]. exists n. split; [| assumption].
    unfold Qeq, inject_Z in Hq. cbn [Qnum Qden] in Hq. nia.
Qed.

(** The guards of [avg] let the call through exactly when the argument is
    left out or is a non-negative integer. *)
Lemma avg_guards (decimalPlaces : JsArg) (w : World) :
  (decimalPlaces = Undefined \/ NonNegativeInteger decimalPlaces ->
     avg decimalPlaces w
     = (rates <- fetch ;;
        history <- _isHistoryRequest ;;
        if negb history then ret rates
        else
          mergedObj <- merge_all (values_of rates) [] ;;
          avgRates <- average_each decimalPlaces mergedObj ;;
          match avgRates with
          | [(_, v)] => ret (VNum v)
          | _ => ret (VRates (map (fun kv => (fst kv, Scalar (snd kv))) avgRates))
          end) w)
  /\ (decimalPlaces <> Undefined -> ~ NonNegativeInteger decimalPlaces ->
        avg decimalPlaces w = (Thrown InvalidArgument_notInteger, w)
        \/ avg decimalPlaces w = (Thrown InvalidArgument_negative, w)).
Proof.
  rewrite nonNegativeInteger_iff. unfold avg. split.
  - intros [-> | [Hint Hneg]]; [reflexivity |].
    rewrite Hint, Hneg, !andb_false_r. reflexivity.
  - intros Hdef Hbad.
    assert (Hu : JsNumber.is_undefined decimalPlaces = false)
      by (destruct decimalPlaces; [congruence | reflexivity ..]).
    rewrite Hu. cbn [negb andb].
    destruct (JsNumber.isInteger decimalPlaces) eqn:Hint; cbn [negb].
    + destruct (JsNumber.lt_zero decimalPlaces) eqn:Hneg.
      * right. reflexivity.
      * exfalso. apply Hbad. split; reflexivity.
    + left. reflexivity.
Qed.

(** The merge neither reads nor writes the world, and throws nothing but
    a TypeError. *)
Lemma push_all_pure (m : JsObject.t Q) (acc : JsObject.t (list Q))
      (w w0 : World) :
  push_all m acc w = (fst (push_all m acc w0), w).
Proof.
  revert acc. induction m as [| kv m IH]; intros acc; cbn [push_all];
    [reflexivity |].
  unfold bind, push_checked.
  destruct (JsObject.has_key Object_prototype_names (fst kv));
    [reflexivity |].
  unfold ret at 1 2. apply IH.
Qed.

Lemma merge_all_pure (rs : list Rate) (acc : JsObject.t (list Q))
      (w w0 : World) :
  merge_all rs acc w = (fst (merge_all rs acc w0), w).
Proof.
  revert acc. induction rs as [| [q | m] rs IH]; intros acc; cbn [merge_all].
  - reflexivity.
  - apply IH.
  - unfold bind. rewrite (push_all_pure m acc w w0), (push_all_pure m acc w0 w0).
    destruct (fst (push_all m acc w0)); [apply IH | reflexivity].
Qed.

Lemma push_all_thrown (m : JsObject.t Q) (acc : JsObject.t (list Q))
      (w : World) (e : Exn) :
  fst (push_all m acc w) = Thrown e -> exists message, e = TypeError message.
Proof.
  revert acc. induction m as [| kv m IH]; intros acc; cbn [push_all].
  - discriminate.
  - unfold bind, push_checked.
    destruct (JsObject.has_key Object_prototype_names (fst kv)).
    + intros H. injection H as <-. eexists. reflexivity.
    + unfold ret at 1. apply IH.
Qed.

Lemma merge_all_thrown (rs : list Rate) (acc : JsObject.t (list Q))
      (w : World) (e : Exn) :
  fst (merge_all rs acc w) = Thrown e -> exists message, e = TypeError message.
Proof.
  revert acc. induction rs as [| [q | m] rs IH]; intros acc; cbn [merge_all].
  - discriminate.
  - apply IH.
  - unfold bind. rewrite (push_all_pure m acc w w).
    pose proof (push_all_thrown m acc w) as Hpush.
    destruct (fst (push_all m acc w)) as [acc' | e'].
    + apply IH.
    + intros H. injection H as <-. now apply Hpush.
Qed.

Lemma average_each_thrown (decimalPlaces : JsArg) (m : JsObject.t (list Q))
      (w : World) (e : Exn) :
  fst (average_each decimalPlaces m w) = Thrown e ->
  is_InvalidArgument e = false.
Proof.
  revert w. induction m as [| [key l] rest IH]; intros w; cbn [average_each].
  - discriminate.
  - unfold bind at 1.
    destruct (JsNumber.is_null decimalPlaces).
    + unfold ret at 1. unfold bind at 1.
      specialize (IH w). destruct (average_each decimalPlaces rest w) as [[a | e'] w'].
      * discriminate.
      * cbn [fst] in *. intros H. injection H as <-. now apply IH.
    + destruct (JsNumber.toFixed (avgRate_of l) decimalPlaces).
      * unfold ret at 1. unfold bind at 1.
        specialize (IH w).
        destruct (average_each decimalPlaces rest w) as [[a | e'] w'].
        -- discriminate.
        -- cbn [fst] in *. intros H. injection H as <-. now apply IH.
      * unfold throw. cbn [fst]. intros H. injection H as <-. reflexivity.
Qed.

Lemma fetch_thrown (w : World) (e : Exn) :
  fst (fetch w) = Thrown e -> is_InvalidArgument e = false.
Proof.
  rewrite fetch_cases, _validate_cases. cbn [fst].
  destruct (_to (this w));
    repeat match goal with
      | |- context [if ?c then _ else _] => destruct c
      | |- context [match network ?w ?u with _ => _ end] =>
          destruct (network w u) as [? | ? [? |]]
      | |- context [match data_rates ?r with _ => _ end] =>
          destruct (data_rates r) as [[| [? ?] [| ? ?]] |]
      end; cbn [fst]; intros H; try discriminate H;
    injection H as <-; reflexivity.
Qed.

(** C9: a [decimalPlaces] that is given and is not a non-negative integer
    makes [avg] throw InvalidArgument with the configuration and the
    request log untouched: no request was issued.  When it is left out or
    is a non-negative integer, whatever [avg] throws is not
    InvalidArgument. *)
Theorem avg_rejects_bad_decimalPlaces (decimalPlaces : JsArg) (w : World) :
  (decimalPlaces <> Undefined -> ~ NonNegativeInteger decimalPlaces ->
     exists e, avg decimalPlaces w = (Thrown e, w)
               /\ is_InvalidArgument e = true)
  /\ (decimalPlaces = Undefined \/ NonNegativeInteger decimalPlaces ->
        forall e, fst (avg decimalPlaces w) = Thrown e ->
                  is_InvalidArgument e = false).
Proof.
  destruct (avg_guards decimalPlaces w) as [Hpass Hfail]. split.
  - intros Hdef Hbad. destruct (Hfail Hdef Hbad) as [H | H];
      eexists; (split; [exact H | reflexivity]).
  - intros Hok e. rewrite (Hpass Hok). unfold bind at 1.
    pose proof (fetch_thrown w) as Hfetch.
    destruct (fetch w) as [[rates | e1] w1]; cbn [fst] in *.
    + unfold bind at 1. unfold _isHistoryRequest, bind, getThis, ret.
      destruct (_to (this w1)); cbn [negb]; [| discriminate].
      rewrite (merge_all_pure (values_of rates) [] w1 w1).
      pose proof (merge_all_thrown (values_of rates) [] w1) as Hmerge.
      destruct (fst (merge_all (values_of rates) [] w1)) as [mergedObj | e2].
      * pose proof (average_each_thrown decimalPlaces mergedObj w1) as Heach.
        destruct (average_each decimalPlaces mergedObj w1)
          as [[[| [k v] [| kv2 rest]] | e3] w3]; cbn [fst] in *;
          try discriminate.
        intros H. injection H as <-. now apply Heach.
      * cbn [fst]. intros H. injection H as <-.
        destruct (Hmerge e2 eq_refl) as [message ->]. reflexivity.
    + intros H. injection H as <-. now apply Hfetch.
Qed.

Lemma avg_rejects_bad_decimalPlaces_witness :
  avg (Num (-1)) Fixtures.history_world
  = (Thrown InvalidArgument_negative, Fixtures.history_world)
  /\ avg (Num 1.5) Fixtures.history_world
     = (Thrown InvalidArgument_notInteger, Fixtures.history_world)
  /\ avg Null Fixtures.history_world
     = (Thrown InvalidArgument_notInteger, Fixtures.history_world)
  /\ is_returned (fst (avg (Num 2) Fixtures.history_world)) = true.
Proof.
  split; [| split; [| split]].
  - destruct (proj1 (avg_rejects_bad_decimalPlaces (Num (-1))
                       Fixtures.history_world)) as [e [He _]].
    + discriminate.
    + intros [n [Hn Hq]].
      unfold Qeq, inject_Z in Hq. cbn [Qnum Qden] in Hq. lia.
    + rewrite He. vm_compute in He. injection He as <-. reflexivity.
  - destruct (proj1 (avg_rejects_bad_decimalPlaces (Num 1.5)
                       Fixtures.history_world)) as [e [He _]].
    + discriminate.
    + intros [n [Hn Hq]].
      unfold Qeq, inject_Z in Hq. cbn [Qnum Qden] in Hq. lia.
    + rewrite He. vm_compute in He. injection He as <-. reflexivity.
  - destruct (proj1 (avg_rejects_bad_decimalPlaces Null
                       Fixtures.history_world)) as [e [He _]].
    + discriminate.
    + intros [].
    + rewrite He. vm_compute in He. injection He as <-. reflexivity.
  - pose proof (proj2 (avg_rejects_bad_decimalPlaces (Num 2)
                         Fixtures.history_world)) as Hok.
    vm_compute. reflexivity.
Defined.

Lemma average_each_undefined_zero (m : JsObject.t (list Q)) (w : World) :
  average_each Undefined m w = average_each (Num 0) m w.
Proof.
  revert w. induction m as [| [key l] rest IH]; intros w; cbn [average_each].
  - reflexivity.
  - unfold bind at 1 3. change (JsNumber.is_null Undefined) with false.
    change (JsNumber.is_null (Num 0)) with false. cbv iota.
    change (JsNumber.toFixed (avgRate_of l) Undefined)
      with (JsNumber.toFixed (avgRate_of l) (Num 0)).
    destruct (JsNumber.toFixed (avgRate_of l) (Num 0)); [| reflexivity].
    unfold ret at 1 3. unfold bind. rewrite IH. reflexivity.
Qed.

(** X15: leaving [decimalPlaces] out is asking for no decimals:
    [undefined] is not [null], so the means go through
    [toFixed(undefined)], and [avg()] behaves in every world as [avg(0)]
    does. *)
Lemma avg_undefined_is_avg_zero (w : World) : avg Undefined w = avg (Num 0) w.
Proof.
  rewrite (proj1 (avg_guards Undefined w)) by (left; reflexivity).
  rewrite (proj1 (avg_guards (Num 0) w)).
  - unfold bind. destruct (fetch w) as [[rates | e] w1]; [| reflexivity].
    destruct (_isHistoryRequest w1) as [[[] | e] w2];
      cbn [negb]; try reflexivity.
    destruct (merge_all (values_of rates) [] w2) as [[mergedObj | e] w3];
      [| reflexivity].
    rewrite average_each_undefined_zero. reflexivity.
  - right. exists 0. split; [lia | reflexivity].
Qed.

(** C1: on the history response
    [{"2021-01-01":{"USD":1.0,"GBP":0.8},"2021-01-02":{"USD":1.2}}] the
    means are 1.1 for USD (two dates) and 0.8 for GBP (one date), and
    [avg()] called without [decimalPlaces] returns them rounded to no
    decimals, [{USD:1, GBP:1}]: the full precision the documentation promises is not
    kept. *)
Theorem avg_without_decimalPlaces_rounds :
  fold_left merge_entry (values_of (VRates Fixtures.history_rates)) []
  = [("USD", [1.0%Q; 1.2%Q]); ("GBP", [0.8%Q])]
  /\ avgRate_of [1.0%Q; 1.2%Q] = 1.1%Q
  /\ (avgRate_of [0.8%Q] == 0.8)%Q
  /\ fst (avg Undefined Fixtures.history_world)
     = Returned (VRates [("USD", Scalar 1%Q); ("GBP", Scalar 1%Q)])
  /\ ~ (1 == 1.1)%Q /\ ~ (1 == 0.8)%Q.
Proof.
  split; [vm_compute; reflexivity |].
  split; [vm_compute; reflexivity |].
  split; [vm_compute; reflexivity |].
  split; [vm_compute; reflexivity |].
  split; intros H; vm_compute in H; discriminate H.
Qed.

Example avg_two_decimals :
  fst (avg (Num 2) Fixtures.history_world)
  = Returned (VRates [("USD", Scalar 1.1%Q); ("GBP", Scalar (4 # 5)%Q)]).
Proof. vm_compute. reflexivity. Qed.

Example avg_single_day_unchanged :
  fst (avg (Num 0)
         (mkWorld Fixtures.client (Fixtures.serving Fixtures.one_rate) []))
  = Returned (VNum 1.1%Q).
Proof. vm_compute. reflexivity. Qed.

Example toFixed_half_away_from_zero :
  JsNumber.toFixed (5 # 2) (Num 0) = Some 3%Q
  /\ JsNumber.toFixed (- 5 # 2) (Num 0) = Some (- 3)%Q
  /\ JsNumber.toFixed (1234 # 1000) (Num 2) = Some (123 # 100)%Q.
Proof. repeat split; vm_compute; reflexivity. Qed.

(* ------------------------------------------------------------------ *)
(** ** Symbols *)

Lemma symbols_loop_known (table : list string)
      (toUpperCase : string -> string) (l : list string) (w : World) :
  Forall (known table toUpperCase) l ->
  symbols_loop table toUpperCase l w = (Returned (map toUpperCase l), w).
Proof.
  induction 1 as [| c rest Hc Hrest IH]; cbn [symbols_loop map].
  - reflexivity.
  - unfold bind at 1. unfold _validateCurrency, throw_if.
    apply has_key_In in Hc. rewrite Hc. cbn [negb]. unfold ret at 1.
    unfold bind. rewrite IH. reflexivity.
Qed.

Lemma symbols_loop_unknown (table : list string)
      (toUpperCase : string -> string) (good : list string)
      (bad : string) (rest : list string) (w : World) :
  Forall (known table toUpperCase) good -> ~ known table toUpperCase bad ->
  symbols_loop table toUpperCase (good ++ bad :: rest) w
  = (Thrown (InvalidCurrency (toUpperCase bad)), w).
Proof.
  intros Hgood Hbad.
  induction Hgood as [| c good' Hc Hgood' IH]; cbn [symbols_loop app].
  - unfold bind at 1. unfold _validateCurrency, throw_if.
    destruct (JsObject.has_key table (toUpperCase bad)) eqn:Hk.
    + exfalso. apply Hbad. apply has_key_In. exact Hk.
    + reflexivity.
  - unfold bind at 1. unfold _validateCurrency, throw_if.
    apply has_key_In in Hc. rewrite Hc. cbn [negb]. unfold ret at 1.
    unfold bind. rewrite IH. reflexivity.
Qed.

Lemma set_nth_app (A : Type) (pre post : list A) (x v : A) :
  JsArray.set_nth (List.length pre) v (pre ++ x :: post)%list
  = (pre ++ v :: post)%list.
Proof.
  induction pre as [| y pre IH]; cbn [List.length app JsArray.set_nth];
    [reflexivity | now rewrite IH].
Qed.

Lemma symbols_held_loop_unknown (table : list string)
      (toUpperCase : string -> string) (good : list string)
      (bad : string) (rest : list string) :
  Forall (known table toUpperCase) good -> ~ known table toUpperCase bad ->
  forall (pre : list string) (w : World),
    _symbols (this w) = Some (pre ++ good ++ bad :: rest)%list ->
    symbols_held_loop table toUpperCase (List.length pre)
      (good ++ bad :: rest)%list w
    = (Thrown (InvalidCurrency (toUpperCase bad)),
       mkWorld (with_symbols
                  (Some (pre ++ map toUpperCase good ++ bad :: rest)%list)
                  (this w))
         (network w) (requests w)).
Proof.
  intros Hgood Hbad.
  induction Hgood as [| c good' Hc Hgood' IH]; intros pre w Hheld;
    cbn [symbols_held_loop app map]; cbn [app] in Hheld.
  - unfold bind at 1. unfold _validateCurrency, throw_if.
    destruct (JsObject.has_key table (toUpperCase bad)) eqn:Hk.
    + exfalso. apply Hbad. apply has_key_In. exact Hk.
    + cbn [negb]. unfold throw. rewrite <- Hheld.
      destruct w as [[u k b s f t] n r]. reflexivity.
  - unfold bind at 1. unfold _validateCurrency, throw_if.
    apply has_key_In in Hc. rewrite Hc. cbn [negb]. unfold ret at 1.
    unfold bind at 1. unfold write_held, modifyThis.
    rewrite Hheld, set_nth_app.
    specialize (IH (pre ++ [toUpperCase c])%list
                  (mkWorld (with_symbols
                              (Some (pre ++ toUpperCase c :: good' ++ bad :: rest)%list)
                              (this w))
                     (network w) (requests w))).
    rewrite length_app, Nat.add_1_r in IH. cbn [List.length] in IH.
    rewrite IH.
    + cbn [this network requests]. rewrite <- !app_assoc. reflexivity.
    + cbn [this with_symbols _symbols]. rewrite <- app_assoc. reflexivity.
Qed.

(** X1: [symbols] given codes that are all known, whatever their case,
    stores them upper-cased, in the order given, and touches no other
    field, the server or the request log. *)
Theorem symbols_stores_upper_cased (table : list string)
        (toUpperCase : string -> string) (arg : SymbolsArg)
        (w : World)
        (Hknown : Forall (known table toUpperCase) (codes_of arg)) :
  symbols table toUpperCase arg w
  = (Returned tt,
     mkWorld (with_symbols (Some (map toUpperCase (codes_of arg)))
                (this w))
       (network w) (requests w)).
Proof.
  unfold symbols. fold (codes_of arg). unfold bind.
  rewrite (symbols_loop_known table toUpperCase _ w Hknown). reflexivity.
Qed.

Lemma symbols_stores_upper_cased_witness :
  _symbols (this (snd (symbols Fixtures.table JsString.toUpperCase_ascii
                         (ManySymbols ["gbp"; "Usd"])
                         (Fixtures.world_of Fixtures.client))))
  = Some ["GBP"; "USD"].
Proof.
  rewrite (symbols_stores_upper_cased Fixtures.table
             JsString.toUpperCase_ascii
             (ManySymbols ["gbp"; "Usd"]) (Fixtures.world_of Fixtures.client)).
  - reflexivity.
  - repeat constructor; unfold known; cbn; tauto.
Defined.

(** X2: [symbols] stops at the first code that is not known and throws
    InvalidCurrency naming that code upper-cased, also when later codes
    are valid.  Called on a string or on an array that is not the one the
    instance holds, it leaves the instance as it was.  Called on the very
    array the instance holds, it has by then overwritten in it the codes
    before the offending one with their upper-case forms, and the rest is
    as the caller left it. *)
Theorem symbols_first_unknown (table : list string)
        (toUpperCase : string -> string)
        (good : list string) (bad : string) (rest : list string) (w : World)
        (Hgood : Forall (known table toUpperCase) good)
        (Hbad : ~ known table toUpperCase bad) :
  (forall arg : SymbolsArg,
     codes_of arg = (good ++ bad :: rest)%list ->
     symbols table toUpperCase arg w
     = (Thrown (InvalidCurrency (toUpperCase bad)), w))
  /\ (_symbols (this w) = Some (good ++ bad :: rest)%list ->
        symbols_held table toUpperCase w
        = (Thrown (InvalidCurrency (toUpperCase bad)),
           mkWorld (with_symbols
                      (Some (map toUpperCase good ++ bad :: rest)%list)
                      (this w))
             (network w) (requests w))).
Proof.
  split.
  - intros arg Hsplit.
    unfold symbols. fold (codes_of arg). rewrite Hsplit. unfold bind.
    rewrite (symbols_loop_unknown table toUpperCase good bad rest w Hgood Hbad).
    reflexivity.
  - intros Hheld. unfold symbols_held, bind, getThis. rewrite Hheld.
    apply (symbols_held_loop_unknown table toUpperCase good bad rest
             Hgood Hbad [] w Hheld).
Qed.

Lemma symbols_first_unknown_witness :
  symbols Fixtures.table JsString.toUpperCase_ascii
    (ManySymbols ["usd"; "btc"; "xrp"; "gbp"])
    (Fixtures.world_of Fixtures.client)
  = (Thrown (InvalidCurrency "BTC"), Fixtures.world_of Fixtures.client)
  /\ _symbols
       (this (snd (symbols_held Fixtures.table JsString.toUpperCase_ascii
                     (Fixtures.world_of
                        (with_symbols (Some ["usd"; "btc"; "xrp"; "gbp"])
                           Fixtures.client)))))
     = Some ["USD"; "btc"; "xrp"; "gbp"].
Proof.
  assert (Hgood : Forall (known Fixtures.table JsString.toUpperCase_ascii)
                    ["usd"])
    by (repeat constructor; unfold known; cbn; tauto).
  assert (Hbad : ~ known Fixtures.table JsString.toUpperCase_ascii "btc")
    by (unfold known; cbn; intros [H | [H | [H | []]]]; discriminate H).
  split.
  - apply (proj1 (symbols_first_unknown Fixtures.table
                    JsString.toUpperCase_ascii ["usd"] "btc" ["xrp"; "gbp"]
                    (Fixtures.world_of Fixtures.client) Hgood Hbad)
             (ManySymbols ["usd"; "btc"; "xrp"; "gbp"])).
    reflexivity.
  - rewrite (proj2 (symbols_first_unknown Fixtures.table
                      JsString.toUpperCase_ascii ["usd"] "btc" ["xrp"; "gbp"]
                      (Fixtures.world_of
                         (with_symbols (Some ["usd"; "btc"; "xrp"; "gbp"])
                            Fixtures.client))
                      Hgood Hbad)).
    + reflexivity.
    + reflexivity.
Defined.

(* ------------------------------------------------------------------ *)
(** ** Validation, as a whole *)

(** X3: [_validate] returns exactly on three kinds of configuration: a
    latest request; a single date of 1999 or later; a range whose [_from]
    is a date of 1999 or later that is not after [_to].  In particular
    the year of [_to] is never looked at on its own. *)
Theorem validate_succeeds_iff (w : World) :
  fst (_validate w) = Returned tt
  <-> match _to (this w), _from (this w) with
      | None, FromLatest => True
      | None, FromOn d => 1999 <= DateFns.getYear d
      | Some t, FromLatest => False
      | Some t, FromOn f =>
          DateFns.isAfter f t = false /\ 1999 <= DateFns.getYear f
      end.
Proof.
  rewrite _validate_cases. cbn [fst].
  unfold from_is_latest, from_isAfter_to, from_before_1999.
  destruct (_to (this w)) as [t |]; destruct (_from (this w)) as [| f].
  - split; [discriminate | contradiction].
  - destruct (DateFns.isAfter f t).
    + split; [discriminate | intros [H _]; discriminate H].
    + destruct (Z.ltb_spec (DateFns.getYear f) 1999).
      * split; [discriminate | intros [_ H']; lia].
      * split; [intros _; split; [reflexivity | assumption] | reflexivity].
  - tauto.
  - destruct (Z.ltb_spec (DateFns.getYear f) 1999).
    + split; [discriminate | lia].
    + tauto.
Qed.

Lemma validate_succeeds_iff_witness :
  fst (_validate (Fixtures.world_of
                    (Fixtures.range Fixtures.jan_2020 Fixtures.end_jan_2020)))
  = Returned tt.
Proof.
  apply (proj2 (validate_succeeds_iff
                  (Fixtures.world_of
                     (Fixtures.range Fixtures.jan_2020 Fixtures.end_jan_2020)))).
  split; [reflexivity | vm_compute; discriminate].
Defined.

(* ------------------------------------------------------------------ *)
(** ** Requests *)

(** X4: on a configuration that [_validate] rejects, [url], [fetch] and
    [avg] (given an acceptable [decimalPlaces]) all throw the validation
    error itself, not wrapped as FetchFailed, and leave the world as it
    was: no request is issued. *)
Theorem invalid_configuration_sends_nothing (w : World) (e : Exn)
        (Hinvalid : fst (_validate w) = Thrown e) :
  url w = (Thrown e, w)
  /\ fetch w = (Thrown e, w)
  /\ (forall decimalPlaces,
        decimalPlaces = Undefined \/ NonNegativeInteger decimalPlaces ->
        avg decimalPlaces w = (Thrown e, w)).
Proof.
  assert (Hfetch : fetch w = (Thrown e, w))
    by (rewrite fetch_cases, Hinvalid; reflexivity).
  split; [rewrite url_cases, Hinvalid; reflexivity |].
  split; [exact Hfetch |].
  intros decimalPlaces Hok.
  rewrite (proj1 (avg_guards decimalPlaces w) Hok).
  unfold bind at 1. rewrite Hfetch. reflexivity.
Qed.

Lemma invalid_configuration_sends_nothing_witness :
  let w := mkWorld (Fixtures.range Fixtures.end_jan_2020 Fixtures.jan_2020)
             (Fixtures.serving Fixtures.history_rates) [] in
  fetch w = (Thrown InvalidDateOrder, w)
  /\ avg (Num 2) w = (Thrown InvalidDateOrder, w).
Proof.
  cbv zeta.
  destruct (invalid_configuration_sends_nothing
              (mkWorld (Fixtures.range Fixtures.end_jan_2020 Fixtures.jan_2020)
                 (Fixtures.serving Fixtures.history_rates) [])
              InvalidDateOrder eq_refl) as [_ [Hfetch Havg]].
  split; [exact Hfetch |].
  apply Havg. right. exists 2. split; [lia | reflexivity].
Defined.

(** X5: on a valid configuration [fetch] issues exactly one request, to
    the URL the [url] getter returns, whatever the server answers; the
    instance is left as it was. *)
Theorem fetch_sends_one_request (w : World)
        (Hvalid : fst (_validate w) = Returned tt) :
  exists u : string,
    url w = (Returned u, w)
    /\ snd (fetch w) = mkWorld (this w) (network w) (requests w ++ [u])%list.
Proof.
  exists (UrlSpec.url_of (this w)). split.
  - rewrite url_cases, Hvalid. reflexivity.
  - rewrite fetch_cases, Hvalid. reflexivity.
Qed.

Lemma fetch_sends_one_request_witness :
  requests (snd (fetch (Fixtures.world_of Fixtures.client)))
  = ["https://api.example/latest?access_key=KEY"].
Proof.
  destruct (fetch_sends_one_request (Fixtures.world_of Fixtures.client) eq_refl)
    as [u [Hurl Hsnd]].
  rewrite Hsnd. vm_compute in Hurl. injection Hurl as <-. reflexivity.
Defined.



(** X7: when axios resolves, which it does on a status from 200 to 299,
    with a status that is not 200, the response never yields rates,
    whatever its body holds: [fetch] throws FetchFailed naming the status.
    With status 200, a body without [rates] makes [fetch] throw, and an
    empty [rates] object is returned as the empty mapping. *)
Theorem fetch_bad_response (w : World) (u : string) (r : Response)
        (Hvalid : fst (_validate w) = Returned tt)
        (Hurl : fst (url w) = Returned u)
        (Hnet : network w u = Resolved r)
        (Hresolves : 200 <= status r < 300) :
  (status r <> 200 ->
     fst (fetch w)
     = Thrown (FetchFailed ("API returned a bad response (HTTP "
                            ++ JsString.of_Z (status r) ++ ")")))
  /\ (status r = 200 -> data_rates r = None ->
        is_returned (fst (fetch w)) = false)
  /\ (status r = 200 -> data_rates r = Some [] ->
        fst (fetch w) = Returned (VRates [])).
Proof.
  rewrite url_cases, Hvalid in Hurl. cbn [fst] in Hurl. injection Hurl as <-.
  rewrite fetch_cases, Hvalid. cbv zeta. cbn [fst]. rewrite Hnet.
  clear Hresolves. split; [| split].
  - intros Hs. apply Z.eqb_neq in Hs. rewrite Hs. reflexivity.
  - intros -> ->. reflexivity.
  - intros -> ->. reflexivity.
Qed.

Lemma fetch_bad_response_witness :
  fst (fetch (mkWorld Fixtures.client
                (fun _ => Resolved (mkResponse 204 None)) []))
  = Thrown (FetchFailed "API returned a bad response (HTTP 204)").
Proof.
  apply (proj1 (fetch_bad_response
                  (mkWorld Fixtures.client
                     (fun _ => Resolved (mkResponse 204 None)) [])
                  "https://api.example/latest?access_key=KEY"
                  (mkResponse 204 None)
                  eq_refl eq_refl eq_refl
                  ltac:(cbn [status]; lia))).
  discriminate.
Defined.

(* ------------------------------------------------------------------ *)
(** ** Averaging, step by step *)

(** [average_each] neither reads nor writes the world. *)
Lemma average_each_pure (decimalPlaces : JsArg) (m : JsObject.t (list Q))
      (w w0 : World) :
  average_each decimalPlaces m w
  = (fst (average_each decimalPlaces m w0), w).
Proof.
  induction m as [| [key l] rest IH]; cbn [average_each]; [reflexivity |].
  unfold bind at 1 3.
  destruct (JsNumber.is_null decimalPlaces).
  - unfold ret at 1 3. unfold bind at 1 2. rewrite IH.
    destruct (average_each decimalPlaces rest w0) as [[a | e] w1];
      reflexivity.
  - destruct (JsNumber.toFixed (avgRate_of l) decimalPlaces);
      [| reflexivity].
    unfold ret at 1 3. unfold bind at 1 2. rewrite IH.
    destruct (average_each decimalPlaces rest w0) as [[a | e] w1];
      reflexivity.
Qed.

(** [avg] past its guards: the outcome of [fetch], untouched on a request
    that is not a range, merged, averaged and collapsed on a range. *)
Lemma avg_after_fetch (decimalPlaces : JsArg) (w : World) :
  decimalPlaces = Undefined \/ NonNegativeInteger decimalPlaces ->
  avg decimalPlaces w
  = match fetch w with
    | (Thrown e, w1) => (Thrown e, w1)
    | (Returned rates, w1) =>
        match _to (this w1) with
        | None => (Returned rates, w1)
        | Some _ =>
            match fst (merge_all (values_of rates) [] w1) with
            | Thrown e => (Thrown e, w1)
            | Returned mergedObj =>
                match fst (average_each decimalPlaces mergedObj w1) with
                | Returned avgRates => (Returned (collapsed avgRates), w1)
                | Thrown e => (Thrown e, w1)
                end
            end
        end
    end.
Proof.
  intros Hok. rewrite (proj1 (avg_guards decimalPlaces w) Hok).
  unfold bind at 1. destruct (fetch w) as [[rates | e] w1]; [| reflexivity].
  unfold bind at 1. unfold _isHistoryRequest, bind, getThis, ret.
  destruct (_to (this w1)); cbn [negb]; [| reflexivity].
  pose proof (merge_all_pure (values_of rates) [] w1 w1) as Hm.
  destruct (merge_all (values_of rates) [] w1) as [o w2].
  cbn [fst] in *. injection Hm as ->.
  destruct o as [mergedObj | e]; [| reflexivity].
  pose proof (average_each_pure decimalPlaces mergedObj w1 w1) as Ha.
  destruct (average_each decimalPlaces mergedObj w1) as [o w2].
  cbn [fst] in *. injection Ha as ->.
  destruct o as [[| [k v] [| kv2 rest]] | e]; reflexivity.
Qed.

(** Past its guards [avg] leaves the world as [fetch] leaves it. *)
Lemma avg_world_is_fetch_world (decimalPlaces : JsArg) (w : World) :
  decimalPlaces = Undefined \/ NonNegativeInteger decimalPlaces ->
  snd (avg decimalPlaces w) = snd (fetch w).
Proof.
  intros Hok. rewrite (avg_after_fetch decimalPlaces w Hok).
  destruct (fetch w) as [[rates | e] w1]; [| reflexivity].
  destruct (_to (this w1)); [| reflexivity].
  destruct (fst (merge_all (values_of rates) [] w1)) as [mergedObj | e];
    [| reflexivity].
  destruct (fst (average_each decimalPlaces mergedObj w1)); reflexivity.
Qed.

Lemma fetch_keeps_instance (w : World) :
  this (snd (fetch w)) = this w /\ network (snd (fetch w)) = network w.
Proof.
  rewrite fetch_cases. destruct (fst (_validate w)); split; reflexivity.
Qed.

Lemma DigitsInRange_accepted (decimalPlaces : JsArg) :
  DigitsInRange decimalPlaces ->
  decimalPlaces = Undefined \/ NonNegativeInteger decimalPlaces.
Proof.
  intros [-> | [n [Hn ->]]]; [now left | right].
  exists n. split; [lia | reflexivity].
Qed.

(** X8: on a request that is not a range (no [to] date set), [avg] with an
    acceptable [decimalPlaces] is [fetch]: same result, same request, and
    no rounding is applied whatever [decimalPlaces] says. *)
Theorem avg_without_range_is_fetch (decimalPlaces : JsArg) (w : World)
        (Hok : decimalPlaces = Undefined \/ NonNegativeInteger decimalPlaces)
        (Hto : _to (this w) = None) :
  avg decimalPlaces w = fetch w.
Proof.
  rewrite (avg_after_fetch decimalPlaces w Hok).
  pose proof (fetch_keeps_instance w) as [Hthis _].
  destruct (fetch w) as [[rates | e] w1]; cbn [snd] in Hthis;
    [| reflexivity].
  rewrite Hthis, Hto. reflexivity.
Qed.

Lemma avg_without_range_is_fetch_witness :
  fst (avg (Num 0)
         (mkWorld (with_from (FromOn Fixtures.jan_2020) Fixtures.client)
            (Fixtures.serving Fixtures.two_rates) []))
  = Returned (VRates [("USD", Scalar 1.1%Q); ("GBP", Scalar 0.9%Q)]).
Proof.
  rewrite (avg_without_range_is_fetch (Num 0)
             (mkWorld (with_from (FromOn Fixtures.jan_2020) Fixtures.client)
                (Fixtures.serving Fixtures.two_rates) [])).
  - reflexivity.
  - right. exists 0. split; [lia | reflexivity].
  - reflexivity.
Defined.

(** What [avg] leaves of the world. *)
Lemma avg_world (decimalPlaces : JsArg) (w : World) :
  this (snd (avg decimalPlaces w)) = this w
  /\ network (snd (avg decimalPlaces w)) = network w
  /\ (requests (snd (avg decimalPlaces w)) = requests w
      \/ requests (snd (avg decimalPlaces w))
         = (requests w ++ [UrlSpec.url_of (this w)])%list).
Proof.
  assert (Hdec : (decimalPlaces = Undefined \/ NonNegativeInteger decimalPlaces)
                 \/ (decimalPlaces <> Undefined
                     /\ ~ NonNegativeInteger decimalPlaces)).
  { destruct decimalPlaces as [| | q | | neg].
    - left. left. reflexivity.
    - right. split; [discriminate | exact (fun H => H)].
    - rewrite nonNegativeInteger_iff.
      destruct (JsNumber.isInteger (Num q)), (JsNumber.lt_zero (Num q));
        try (left; right; split; reflexivity);
        right; (split; [discriminate | intros [H1 H2]; discriminate]).
    - right. split; [discriminate | exact (fun H => H)].
    - right. split; [discriminate | exact (fun H => H)]. }
  destruct Hdec as [Hok | [Hdef Hbad]].
  - rewrite (avg_world_is_fetch_world decimalPlaces w Hok), fetch_cases.
    destruct (fst (_validate w)); cbv zeta; cbn [snd this network requests];
      (split; [reflexivity | split; [reflexivity |]]);
      [now right | now left].
  - destruct (proj2 (avg_guards decimalPlaces w) Hdef Hbad) as [-> | ->];
      cbn [snd]; (split; [reflexivity | split; [reflexivity | now left]]).
Qed.

(** X9: the readers never write: [url], [fetch] and [avg] leave the
    instance and the server as they found them, whatever the argument and
    whatever happens, and [avg] issues no request or exactly the one
    [fetch] issues. *)
Theorem readers_keep_instance (decimalPlaces : JsArg) (w : World) :
  snd (url w) = w
  /\ this (snd (fetch w)) = this w
  /\ network (snd (fetch w)) = network w
  /\ this (snd (avg decimalPlaces w)) = this w
  /\ network (snd (avg decimalPlaces w)) = network w
  /\ (requests (snd (avg decimalPlaces w)) = requests w
      \/ requests (snd (avg decimalPlaces w))
         = (requests w ++ [UrlSpec.url_of (this w)])%list).
Proof.
  split.
  - rewrite url_cases. destruct (fst (_validate w)); reflexivity.
  - destruct (fetch_keeps_instance w) as [Hthis Hnet].
    split; [exact Hthis |]. split; [exact Hnet |].
    apply avg_world.
Qed.

(* ------------------------------------------------------------------ *)
(** ** Merging the dates of a history response *)

Lemma get_set (A : Type) (o : JsObject.t A) (k k' : string) (v : A) :
  JsObject.get (JsObject.set o k v) k'
  = if String.eqb k k' then Some v else JsObject.get o k'.
Proof.
  induction o as [| [k0 v0] r IH]; cbn [JsObject.set JsObject.get].
  - destruct (String.eqb k k'); reflexivity.
  - destruct (String.eqb_spec k0 k) as [-> | Hne]; cbn [JsObject.get].
    + destruct (String.eqb k k'); reflexivity.
    + rewrite IH. destruct (String.eqb_spec k0 k') as [-> | Hne'];
        [| reflexivity].
      destruct (String.eqb_spec k k'); [congruence | reflexivity].
Qed.

Lemma keys_set (A : Type) (o : JsObject.t A) (k : string) (v : A) :
  JsObject.keys (JsObject.set o k v)
  = if JsObject.has_key (JsObject.keys o) k then JsObject.keys o
    else (JsObject.keys o ++ [k])%list.
Proof.
  unfold JsObject.keys, JsObject.has_key.
  induction o as [| [k0 v0] r IH]; cbn [JsObject.set map existsb fst app].
  - reflexivity.
  - rewrite (String.eqb_sym k k0).
    destruct (String.eqb k0 k); cbn [map fst orb]; [reflexivity |].
    rewrite IH. destruct (existsb (String.eqb k) (map fst r)); reflexivity.
Qed.

Lemma NoDup_keys_set (A : Type) (o : JsObject.t A) (k : string) (v : A) :
  NoDup (JsObject.keys o) -> NoDup (JsObject.keys (JsObject.set o k v)).
Proof.
  intros Hnd. rewrite keys_set.
  destruct (JsObject.has_key (JsObject.keys o) k) eqn:Hk; [assumption |].
  apply NoDup_app; [assumption | repeat constructor; intros [] |].
  intros x Hx [<- | []].
  apply has_key_In in Hx. congruence.
Qed.

Lemma In_keys_set (A : Type) (o : JsObject.t A) (k k' : string) (v : A) :
  In k' (JsObject.keys (JsObject.set o k v))
  <-> In k' (JsObject.keys o) \/ k' = k.
Proof.
  rewrite keys_set.
  destruct (JsObject.has_key (JsObject.keys o) k) eqn:Hk.
  - apply has_key_In in Hk. split; [tauto | intros [H | ->]; assumption].
  - rewrite in_app_iff. cbn [In]. split.
    + intros [H | [<- | []]]; [now left | now right].
    + intros [H | ->]; [now left | right; now left].
Qed.

Lemma rates_of_push_rate (acc : JsObject.t (list Q)) (kv : string * Q)
      (k : string) :
  rates_of (push_rate acc kv) k
  = if String.eqb (fst kv) k then (rates_of acc k ++ [snd kv])%list
    else rates_of acc k.
Proof.
  unfold rates_of, push_rate. rewrite get_set.
  destruct (String.eqb_spec (fst kv) k) as [-> | Hne]; reflexivity.
Qed.

Lemma rates_of_push_all (m : JsObject.t Q) (acc : JsObject.t (list Q))
      (k : string) :
  rates_of (fold_left push_rate m acc) k
  = (rates_of acc k
     ++ map snd (filter (fun kv => String.eqb (fst kv) k) m))%list.
Proof.
  revert acc. induction m as [| kv m IH]; intros acc; cbn [fold_left filter].
  - now rewrite app_nil_r.
  - rewrite IH, rates_of_push_rate.
    destruct (String.eqb (fst kv) k); cbn [map]; [| reflexivity].
    now rewrite <- app_assoc.
Qed.

Lemma rates_of_merge (rs : list Rate) (acc : JsObject.t (list Q))
      (k : string) :
  rates_of (fold_left merge_entry rs acc) k
  = (rates_of acc k ++ occurrences k rs)%list.
Proof.
  revert acc. induction rs as [| r rs IH]; intros acc;
    cbn [fold_left occurrences flat_map].
  - now rewrite app_nil_r.
  - rewrite IH. fold (occurrences k rs).
    destruct r as [q | m]; cbn [merge_entry app]; [reflexivity |].
    now rewrite rates_of_push_all, <- app_assoc.
Qed.

Lemma In_keys_push_all (m : JsObject.t Q) (acc : JsObject.t (list Q))
      (k : string) :
  In k (JsObject.keys (fold_left push_rate m acc))
  <-> In k (JsObject.keys acc)
      \/ filter (fun kv => String.eqb (fst kv) k) m <> [].
Proof.
  revert acc. induction m as [| kv m IH]; intros acc; cbn [fold_left filter].
  - split; [tauto | intros [H | H]; [assumption | congruence]].
  - rewrite IH. unfold push_rate at 1. rewrite In_keys_set.
    destruct (String.eqb_spec (fst kv) k) as [-> | Hne].
    + split; [intros _; right; discriminate | intros _; left; now right].
    + split; intros [H | H]; try tauto.
      destruct H as [H | H]; [tauto | congruence].
Qed.

Lemma In_keys_merge (rs : list Rate) (acc : JsObject.t (list Q))
      (k : string) :
  In k (JsObject.keys (fold_left merge_entry rs acc))
  <-> In k (JsObject.keys acc) \/ occurrences k rs <> [].
Proof.
  revert acc. induction rs as [| r rs IH]; intros acc;
    cbn [fold_left occurrences flat_map].
  - split; [tauto | intros [H | H]; [assumption | congruence]].
  - rewrite IH. fold (occurrences k rs).
    destruct r as [q | m]; cbn [merge_entry app]; [reflexivity |].
    rewrite In_keys_push_all.
    assert (Hnil : forall a b : list Q,
               (a ++ b)%list <> [] <-> a <> [] \/ b <> []).
    { intros a b. destruct a as [| x a]; cbn [app].
      - split; [intros H; now right | intros [H | H]; [congruence | assumption]].
      - split; [intros _; left; discriminate | intros _; discriminate]. }
    rewrite Hnil.
    assert (Hmap : map snd (filter (fun kv => String.eqb (fst kv) k) m) <> []
                   <-> filter (fun kv => String.eqb (fst kv) k) m <> []).
    { destruct (filter (fun kv => String.eqb (fst kv) k) m); cbn;
        split; intros H; congruence. }
    rewrite Hmap. tauto.
Qed.

Lemma NoDup_keys_merge (rs : list Rate) (acc : JsObject.t (list Q)) :
  NoDup (JsObject.keys acc) ->
  NoDup (JsObject.keys (fold_left merge_entry rs acc)).
Proof.
  revert acc. induction rs as [| r rs IH]; intros acc Hnd; cbn [fold_left].
  - assumption.
  - apply IH. destruct r as [q | m]; cbn [merge_entry]; [assumption |].
    clear IH. revert acc Hnd. induction m as [| kv m IHm]; intros acc Hnd;
      cbn [fold_left]; [assumption |].
    apply IHm. unfold push_rate. now apply NoDup_keys_set.
Qed.

Lemma get_In_keys (A : Type) (o : JsObject.t A) (k : string) :
  JsObject.get o k <> None <-> In k (JsObject.keys o).
Proof.
  unfold JsObject.keys.
  induction o as [| [k0 v0] r IH]; cbn [JsObject.get map In fst].
  - tauto.
  - destruct (String.eqb_spec k0 k) as [-> | Hne].
    + split; [now left | discriminate].
    + rewrite IH. split; [now right | intros [H | H]; [congruence | assumption]].
Qed.

(** What the merge holds when no key is inherited: each currency's rates,
    date after date, and each key once. *)
Lemma merge_entry_occurrences (rs : list Rate) (k : string) :
  JsObject.get (fold_left merge_entry rs []) k
  = match occurrences k rs with
    | [] => None
    | l => Some l
    end
  /\ NoDup (JsObject.keys (fold_left merge_entry rs [])).
Proof.
  split; [| apply NoDup_keys_merge; constructor].
  pose proof (rates_of_merge rs [] k) as Hrates.
  pose proof (In_keys_merge rs [] k) as Hkeys.
  pose proof (get_In_keys _ (fold_left merge_entry rs []) k) as Hget.
  unfold rates_of in Hrates. cbn [JsObject.get app JsObject.keys map In] in *.
  destruct (JsObject.get (fold_left merge_entry rs []) k) as [l |].
  - rewrite <- Hrates.
    destruct l as [| x l]; [| reflexivity].
    exfalso.
    assert (Hin : In k (JsObject.keys (fold_left merge_entry rs [])))
      by (apply Hget; discriminate).
    apply Hkeys in Hin. destruct Hin as [[] | Hne]. now apply Hne.
  - destruct (occurrences k rs) as [| x l]; [reflexivity |].
    exfalso.
    assert (Hin : In k (JsObject.keys (fold_left merge_entry rs [])))
      by (apply Hkeys; right; discriminate).
    apply Hget in Hin. now apply Hin.
Qed.

Lemma push_all_cases (m : JsObject.t Q) (acc : JsObject.t (list Q))
      (w : World) :
  (Forall (fun k => JsObject.has_key Object_prototype_names k = false)
     (JsObject.keys m)
   /\ push_all m acc w = (Returned (fold_left push_rate m acc), w))
  \/ (Exists (fun k => JsObject.has_key Object_prototype_names k = true)
        (JsObject.keys m)
      /\ exists message, push_all m acc w = (Thrown (TypeError message), w)).
Proof.
  unfold JsObject.keys. revert acc.
  induction m as [| kv m IH]; intros acc; cbn [push_all map fold_left].
  - left. split; [constructor | reflexivity].
  - unfold bind, push_checked.
    destruct (JsObject.has_key Object_prototype_names (fst kv)) eqn:Hk.
    + right. split; [now constructor | eexists; reflexivity].
    + unfold ret at 1.
      destruct (IH (push_rate acc kv)) as [[Hall Hrun] | [Hsome Hrun]].
      * left. split; [now constructor | exact Hrun].
      * right. split; [now apply Exists_cons_tl | exact Hrun].
Qed.

Lemma merge_all_cases (rs : list Rate) (acc : JsObject.t (list Q))
      (w : World) :
  (no_inherited_name rs
   /\ merge_all rs acc w = (Returned (fold_left merge_entry rs acc), w))
  \/ (Exists (fun k => JsObject.has_key Object_prototype_names k = true)
        (names_of rs)
      /\ exists message, merge_all rs acc w = (Thrown (TypeError message), w)).
Proof.
  unfold no_inherited_name. revert acc.
  induction rs as [| [q | m] rs IH]; intros acc;
    cbn [merge_all names_of flat_map fold_left merge_entry app].
  - left. split; [constructor | reflexivity].
  - apply IH.
  - fold (names_of rs). unfold bind.
    destruct (push_all_cases m acc w) as [[Hall ->] | [Hsome [message ->]]].
    + destruct (IH (fold_left push_rate m acc)) as [[Hrest Hrun] | [Hrest Hrun]].
      * left. split; [apply Forall_app; now split | exact Hrun].
      * right. split; [apply Exists_app; now right | exact Hrun].
    + right. split; [apply Exists_app; now left | eexists; reflexivity].
Qed.

(** X10: the merge of [avg] over the dates of a history response.  When
    no currency is named as a property plain objects inherit, each
    currency holds the rates listed for it, date after date, from the
    dates on which it appears only; a currency that appears on no date is
    not a key, an entry that is a bare number contributes nothing, and no
    key occurs twice.  When some currency is named so ([constructor],
    [toString], [__proto__], ...), the merge throws a TypeError. *)
Theorem merge_collects_occurrences (rs : list Rate) (w : World) :
  (no_inherited_name rs ->
     exists mergedObj,
       merge_all rs [] w = (Returned mergedObj, w)
       /\ NoDup (JsObject.keys mergedObj)
       /\ forall k,
            JsObject.get mergedObj k
            = match occurrences k rs with
              | [] => None
              | l => Some l
              end)
  /\ (Exists (fun k => JsObject.has_key Object_prototype_names k = true)
        (names_of rs) ->
      exists message, merge_all rs [] w = (Thrown (TypeError message), w)).
Proof.
  destruct (merge_all_cases rs [] w) as [[Hall Hrun] | [Hsome Hrun]]; split.
  - intros _. exists (fold_left merge_entry rs []).
    split; [exact Hrun |].
    split; [apply (merge_entry_occurrences rs EmptyString) |].
    intros k. apply (merge_entry_occurrences rs k).
  - intros Hsome. exfalso. unfold no_inherited_name in Hall.
    apply Exists_exists in Hsome. destruct Hsome as [k [Hin Hk]].
    rewrite Forall_forall in Hall. rewrite (Hall k Hin) in Hk. discriminate.
  - intros Hall. exfalso. unfold no_inherited_name in Hall.
    apply Exists_exists in Hsome. destruct Hsome as [k [Hin Hk]].
    rewrite Forall_forall in Hall. rewrite (Hall k Hin) in Hk. discriminate.
  - intros _. exact Hrun.
Qed.

Lemma merge_collects_occurrences_witness :
  (exists mergedObj,
     merge_all (JsObject.values Fixtures.history_rates) []
       Fixtures.history_world
     = (Returned mergedObj, Fixtures.history_world)
     /\ JsObject.get mergedObj "USD" = Some [1.0%Q; 1.2%Q]
     /\ JsObject.get mergedObj "GBP" = Some [0.8%Q]
     /\ JsObject.get mergedObj "EUR" = None)
  /\ exists message,
       merge_all [PerCurrency [("USD", 1.1%Q); ("toString", 2%Q)]] []
         Fixtures.history_world
       = (Thrown (TypeError message), Fixtures.history_world).
Proof.
  split.
  - destruct (proj1 (merge_collects_occurrences
                       (JsObject.values Fixtures.history_rates)
                       Fixtures.history_world))
      as [mergedObj [Hrun [_ Hget]]].
    + repeat constructor.
    + exists mergedObj. split; [exact Hrun |].
      rewrite !Hget. repeat split; reflexivity.
  - apply (proj2 (merge_collects_occurrences
                    [PerCurrency [("USD", 1.1%Q); ("toString", 2%Q)]]
                    Fixtures.history_world)).
    apply Exists_cons_tl. apply Exists_cons_hd. reflexivity.
Defined.

(* ------------------------------------------------------------------ *)
(** ** Averaging a history response *)

Lemma toFixed_in_range (decimalPlaces : JsArg) (x : Q) :
  DigitsInRange decimalPlaces ->
  JsNumber.is_null decimalPlaces = false
  /\ exists v, JsNumber.toFixed x decimalPlaces = Some v.
Proof.
  intros [-> | [n [Hn ->]]]; (split; [reflexivity |]); unfold JsNumber.toFixed;
    cbn [JsNumber.toIntegerOrInfinity].
  - cbn [Z.ltb Z.compare orb].
    destruct (Qle_bool (inject_Z (10 ^ 21)) (Qabs x)); eexists; reflexivity.
  - unfold JsNumber.truncate, inject_Z. cbn [Qnum Qden]. rewrite Z.quot_1_r.
    destruct (Z.ltb_spec n 0); [lia |].
    destruct (Z.ltb_spec 100 n); [lia |]. cbn [orb].
    match goal with
    | |- context [if ?c then _ else _] => destruct c
    end; eexists; reflexivity.
Qed.

Lemma average_each_in_range (decimalPlaces : JsArg)
      (m : JsObject.t (list Q)) (w : World) :
  DigitsInRange decimalPlaces ->
  exists avgRates,
    average_each decimalPlaces m w = (Returned avgRates, w)
    /\ JsObject.keys avgRates = JsObject.keys m
    /\ forall k,
         JsObject.get avgRates k
         = match JsObject.get m k with
           | Some l => JsNumber.toFixed (avgRate_of l) decimalPlaces
           | None => None
           end.
Proof.
  intros Hdp. induction m as [| [key l] rest IH]; cbn [average_each].
  - exists []. repeat split.
  - destruct IH as [r [Hrun [Hkeys Hget]]].
    destruct (toFixed_in_range decimalPlaces (avgRate_of l) Hdp)
      as [Hnull [v Hv]].
    exists ((key, v) :: r). unfold bind at 1. rewrite Hnull, Hv.
    unfold ret at 1. unfold bind. rewrite Hrun.
    split; [reflexivity |]. split.
    + unfold JsObject.keys in *. cbn [map fst]. now rewrite Hkeys.
    + intros k. cbn [JsObject.get]. rewrite Hget.
      destruct (String.eqb key k); [now rewrite Hv | reflexivity].
Qed.

(** What [fetch] hands to [avg] on a valid range whose response has
    status 200. *)
Lemma fetch_history_response (w : World) (u : string) (rates : Rates)
      (Hvalid : fst (_validate w) = Returned tt)
      (Hurl : fst (url w) = Returned u)
      (Hnet : network w u = Resolved (mkResponse 200 (Some rates))) :
  fetch w
  = (Returned match rates with
              | [(_, rate)] => Value_of_Rate rate
              | _ => VRates rates
              end,
     mkWorld (this w) (network w) (requests w ++ [u])%list).
Proof.
  rewrite url_cases, Hvalid in Hurl. cbn [fst] in Hurl. injection Hurl as <-.
  rewrite fetch_cases, Hvalid. cbv zeta. rewrite Hnet.
  cbn [status data_rates Z.eqb Pos.eqb].
  destruct rates as [| [k v] [| kv rest]]; reflexivity.
Qed.

(** [avg] on a valid range whose response lists no date or two dates or
    more, none of them with an inherited name: one request, then the
    averages of the merged rates, collapsed. *)
Lemma avg_history_run (decimalPlaces : JsArg) (w : World) (u : string)
      (t : Date) (rates : Rates)
      (Hok : decimalPlaces = Undefined \/ NonNegativeInteger decimalPlaces)
      (Hvalid : fst (_validate w) = Returned tt)
      (Hto : _to (this w) = Some t)
      (Hurl : fst (url w) = Returned u)
      (Hnet : network w u = Resolved (mkResponse 200 (Some rates)))
      (Hlen : List.length rates <> 1%nat)
      (Hnames : no_inherited_name (JsObject.values rates)) :
  avg decimalPlaces w
  = (match fst (average_each decimalPlaces
                  (fold_left merge_entry (JsObject.values rates) []) w) with
     | Returned avgRates => Returned (collapsed avgRates)
     | Thrown e => Thrown e
     end,
     mkWorld (this w) (network w) (requests w ++ [u])%list).
Proof.
  rewrite (avg_after_fetch decimalPlaces w Hok).
  rewrite (fetch_history_response w u rates Hvalid Hurl Hnet).
  cbn [this]. rewrite Hto.
  assert (Hval : match rates with
                 | [(_, rate)] => Value_of_Rate rate
                 | _ => VRates rates
                 end = VRates rates).
  { destruct rates as [| [k v] [| kv rest]]; cbn [List.length] in Hlen;
      congruence. }
  rewrite Hval. cbn [values_of].
  destruct (merge_all_cases (JsObject.values rates) []
              (mkWorld (this w) (network w) (requests w ++ [u])%list))
    as [[_ ->] | [Hsome _]].
  - cbn [fst].
    rewrite (average_each_pure decimalPlaces _
               (mkWorld (this w) (network w) (requests w ++ [u])%list) w).
    cbn [fst].
    destruct (fst (average_each decimalPlaces
                     (fold_left merge_entry (JsObject.values rates) []) w));
      reflexivity.
  - exfalso. unfold no_inherited_name in Hnames.
    apply Exists_exists in Hsome. destruct Hsome as [k [Hin Hk]].
    rewrite Forall_forall in Hnames. rewrite (Hnames k Hin) in Hk.
    discriminate.
Qed.

(** X11: on a valid range whose response lists two dates or more (or
    none), none of them under an inherited name, [avg] with
    [decimalPlaces] left out or from 0 to 100 returns, collapsed, an
    object whose keys are the currencies that appear on some date, each
    once, and the value under a currency is decided by [decimalPlaces]
    and by that currency's rates alone, in the order of the dates: the
    dates on which it is missing and the other currencies play no
    part. *)
Theorem avg_history_by_currency (decimalPlaces : JsArg)
        (Hdp : DigitsInRange decimalPlaces) :
  exists average : list Q -> option Q,
    average [] = None
    /\ (forall l, l <> [] -> average l <> None)
    /\ forall (w : World) (u : string) (t : Date) (rates : Rates),
         fst (_validate w) = Returned tt ->
         _to (this w) = Some t ->
         fst (url w) = Returned u ->
         network w u = Resolved (mkResponse 200 (Some rates)) ->
         List.length rates <> 1%nat ->
         no_inherited_name (JsObject.values rates) ->
         exists avgRates,
           fst (avg decimalPlaces w) = Returned (collapsed avgRates)
           /\ NoDup (JsObject.keys avgRates)
           /\ forall k,
                JsObject.get avgRates k
                = average (occurrences k (JsObject.values rates)).
Proof.
  exists (fun l => match l with
                   | [] => None
                   | _ => JsNumber.toFixed (avgRate_of l) decimalPlaces
                   end).
  split; [reflexivity |]. split.
  - intros l Hl. destruct l as [| x l]; [congruence |].
    destruct (toFixed_in_range decimalPlaces (avgRate_of (x :: l)) Hdp)
      as [_ [v ->]]. discriminate.
  - intros w u t rates Hvalid Hto Hurl Hnet Hlen Hnames.
    rewrite (avg_history_run decimalPlaces w u t rates
               (DigitsInRange_accepted _ Hdp) Hvalid Hto Hurl Hnet Hlen Hnames).
    destruct (average_each_in_range decimalPlaces
                (fold_left merge_entry (JsObject.values rates) []) w Hdp)
      as [r [Hrun [Hkeys Hget]]].
    exists r. rewrite Hrun. cbn [fst]. split; [reflexivity |].
    destruct (merge_entry_occurrences (JsObject.values rates) EmptyString)
      as [_ Hnd].
    split; [rewrite Hkeys; exact Hnd |].
    intros k. rewrite Hget.
    destruct (merge_entry_occurrences (JsObject.values rates) k) as [-> _].
    destruct (occurrences k (JsObject.values rates)); reflexivity.
Qed.

Lemma avg_history_by_currency_witness :
  exists avgRates,
    fst (avg (Num 1) Fixtures.history_world) = Returned (collapsed avgRates)
    /\ JsObject.keys avgRates = ["USD"; "GBP"].
Proof.
  destruct (avg_history_by_currency (Num 1)) as [average [_ [_ Hrun]]].
  - right. exists 1. split; [lia | reflexivity].
  - destruct (Hrun Fixtures.history_world
                "https://api.example/history?start_at=2021-01-01&end_at=2021-01-02&access_key=KEY"
                (mkDate 2021 1 2) Fixtures.history_rates)
      as [r [Havg _]].
    + reflexivity.
    + reflexivity.
    + reflexivity.
    + reflexivity.
    + discriminate.
    + repeat constructor.
    + exists r. split; [exact Havg |].
      vm_compute in Havg. injection Havg as Havg.
      destruct r as [| [k1 v1] [| [k2 v2] [| kv3 r]]]; cbn in Havg;
        try discriminate Havg.
      injection Havg as <- _ <- _. reflexivity.
Defined.

Lemma merge_all_scalars (l : list Q) (acc : JsObject.t (list Q)) (w : World) :
  merge_all (map Scalar l) acc w = (Returned acc, w).
Proof.
  induction l as [| q l IH]; cbn [map merge_all]; [reflexivity | apply IH].
Qed.

(** X12: on a valid range whose response lists a single date, [fetch] has
    already collapsed the response to that date's rates, which [avg] takes
    for the dates: it finds no per-date object among them and returns the
    empty mapping, whatever the rates of that date were. *)
Theorem avg_single_date_range_is_empty (decimalPlaces : JsArg) (w : World)
        (u date : string) (t : Date) (rate : Rate)
        (Hdp : decimalPlaces = Undefined \/ NonNegativeInteger decimalPlaces)
        (Hvalid : fst (_validate w) = Returned tt)
        (Hto : _to (this w) = Some t)
        (Hurl : fst (url w) = Returned u)
        (Hnet : network w u
                = Resolved (mkResponse 200 (Some [(date, rate)]))) :
  fst (avg decimalPlaces w) = Returned (VRates []).
Proof.
  rewrite (avg_after_fetch decimalPlaces w Hdp).
  rewrite (fetch_history_response w u _ Hvalid Hurl Hnet).
  cbn [this]. rewrite Hto.
  assert (Hmerged : forall w', merge_all (values_of (Value_of_Rate rate)) [] w'
                               = (Returned [], w')).
  { intros w'. destruct rate as [q | m]; cbn [Value_of_Rate values_of];
      [reflexivity |].
    unfold JsObject.values. rewrite map_map. cbn [snd].
    rewrite <- (map_map snd Scalar). apply merge_all_scalars. }
  rewrite Hmerged. reflexivity.
Qed.

Lemma avg_single_date_range_is_empty_witness :
  fst (avg Undefined
         (mkWorld (Fixtures.range Fixtures.jan_2020 Fixtures.jan_2020)
            (Fixtures.serving
               [("2020-01-01", PerCurrency [("USD", 1.1%Q); ("GBP", 0.9%Q)])])
            []))
  = Returned (VRates []).
Proof.
  apply (avg_single_date_range_is_empty Undefined
           (mkWorld (Fixtures.range Fixtures.jan_2020 Fixtures.jan_2020)
              (Fixtures.serving
                 [("2020-01-01", PerCurrency [("USD", 1.1%Q); ("GBP", 0.9%Q)])])
              [])
           "https://api.example/history?start_at=2020-01-01&end_at=2020-01-01&access_key=KEY"
           "2020-01-01" Fixtures.jan_2020
           (PerCurrency [("USD", 1.1%Q); ("GBP", 0.9%Q)])).
  - left. reflexivity.
  - reflexivity.
  - reflexivity.
  - reflexivity.
  - reflexivity.
Defined.

Lemma merge_single_symbol (k : string) (vs l0 : list Q) :
  fold_left merge_entry (map (fun v => PerCurrency [(k, v)]) vs) [(k, l0)]
  = [(k, (l0 ++ vs)%list)].
Proof.
  revert l0. induction vs as [| v vs IH]; intros l0; cbn [map fold_left].
  - now rewrite app_nil_r.
  - cbn [merge_entry fold_left]. unfold push_rate.
    cbn [fst snd JsObject.get JsObject.set]. rewrite String.eqb_refl.
    rewrite IH, <- app_assoc. reflexivity.
Qed.

Lemma names_of_single_symbol (k : string) (vs : list Q) :
  JsObject.has_key Object_prototype_names k = false ->
  no_inherited_name (map (fun v => PerCurrency [(k, v)]) vs).
Proof.
  intros Hk. unfold no_inherited_name.
  induction vs as [| v vs IH]; cbn [map names_of flat_map JsObject.keys fst app].
  - constructor.
  - constructor; [exact Hk | exact IH].
Qed.

(** X13: on a valid range whose response lists two dates or more, each
    with the same single currency (not named as an inherited property),
    [avg] with [decimalPlaces] left out or from 0 to 100 returns a bare
    number, not a one-entry mapping. *)
Theorem avg_single_symbol_is_number (decimalPlaces : JsArg) (w : World)
        (u k : string) (t : Date) (rates : Rates) (vs : list Q)
        (Hdp : DigitsInRange decimalPlaces)
        (Hvalid : fst (_validate w) = Returned tt)
        (Hto : _to (this w) = Some t)
        (Hurl : fst (url w) = Returned u)
        (Hnet : network w u = Resolved (mkResponse 200 (Some rates)))
        (Hlen : (2 <= List.length rates)%nat)
        (Hone : JsObject.values rates
                = map (fun v => PerCurrency [(k, v)]) vs)
        (Hk : JsObject.has_key Object_prototype_names k = false) :
  exists v, fst (avg decimalPlaces w) = Returned (VNum v).
Proof.
  assert (Hnames : no_inherited_name (JsObject.values rates))
    by (rewrite Hone; now apply names_of_single_symbol).
  assert (Hlen' : List.length rates <> 1%nat) by lia.
  rewrite (avg_history_run decimalPlaces w u t rates
             (DigitsInRange_accepted _ Hdp) Hvalid Hto Hurl Hnet Hlen' Hnames).
  rewrite Hone. cbn [fst].
  destruct vs as [| v0 vs].
  - apply (f_equal (@List.length Rate)) in Hone.
    unfold JsObject.values in Hone. rewrite length_map in Hone.
    cbn [map List.length] in Hone. lia.
  - cbn [map fold_left merge_entry]. unfold push_rate at 1.
    cbn [fst snd JsObject.get JsObject.set app].
    rewrite merge_single_symbol. cbn [app average_each].
    destruct (toFixed_in_range decimalPlaces (avgRate_of (v0 :: vs)) Hdp)
      as [Hnull [v Hv]].
    exists v. unfold bind at 1. rewrite Hnull, Hv. reflexivity.
Qed.

Lemma avg_single_symbol_is_number_witness :
  exists v,
    fst (avg (Num 1)
           (mkWorld (Fixtures.range Fixtures.jan_2020 Fixtures.end_jan_2020)
              (Fixtures.serving
                 [("2020-01-01", PerCurrency [("USD", 1.1%Q)]);
                  ("2020-01-02", PerCurrency [("USD", 1.3%Q)])])
              []))
    = Returned (VNum v).
Proof.
  apply (avg_single_symbol_is_number (Num 1)
           (mkWorld (Fixtures.range Fixtures.jan_2020 Fixtures.end_jan_2020)
              (Fixtures.serving
                 [("2020-01-01", PerCurrency [("USD", 1.1%Q)]);
                  ("2020-01-02", PerCurrency [("USD", 1.3%Q)])])
              [])
           "https://api.example/history?start_at=2020-01-01&end_at=2020-01-31&access_key=KEY"
           "USD" Fixtures.end_jan_2020
           [("2020-01-01", PerCurrency [("USD", 1.1%Q)]);
            ("2020-01-02", PerCurrency [("USD", 1.3%Q)])]
           [1.1%Q; 1.3%Q]).
  - right. exists 1. split; [lia | reflexivity].
  - reflexivity.
  - reflexivity.
  - reflexivity.
  - reflexivity.
  - cbn. lia.
  - reflexivity.
  - reflexivity.
Defined.

(** X14: a [decimalPlaces] above 100 passes the guards of [avg].  On a
    valid range whose response lists two dates or more, with some
    currency on some date and none under an inherited name, the request
    is issued first, and only then does the rounding throw a RangeError,
    which is not an ExchangeRatesError. *)
Theorem avg_digits_above_100 (n : Z) (w : World) (u k : string) (t : Date)
        (rates : Rates)
        (Hn : 100 < n)
        (Hvalid : fst (_validate w) = Returned tt)
        (Hto : _to (this w) = Some t)
        (Hurl : fst (url w) = Returned u)
        (Hnet : network w u = Resolved (mkResponse 200 (Some rates)))
        (Hlen : (2 <= List.length rates)%nat)
        (Hnames : no_inherited_name (JsObject.values rates))
        (Hsome : occurrences k (JsObject.values rates) <> []) :
  exists message,
    avg (Num (inject_Z n)) w
    = (Thrown (RangeError message),
       mkWorld (this w) (network w) (requests w ++ [u])%list).
Proof.
  assert (Hdp : Num (inject_Z n) = Undefined
                \/ NonNegativeInteger (Num (inject_Z n))).
  { right. exists n. split; [lia | reflexivity]. }
  assert (Hlen' : List.length rates <> 1%nat) by lia.
  rewrite (avg_history_run _ w u t rates Hdp Hvalid Hto Hurl Hnet Hlen' Hnames).
  assert (Hin : In k (JsObject.keys
                        (fold_left merge_entry (JsObject.values rates) [])))
    by (apply In_keys_merge; now right).
  destruct (fold_left merge_entry (JsObject.values rates) [])
    as [| [key l] rest]; [destruct Hin |].
  cbn [average_each]. unfold bind at 1. cbn [JsNumber.is_null].
  assert (Hfixed : JsNumber.toFixed (avgRate_of l) (Num (inject_Z n)) = None).
  { unfold JsNumber.toFixed. cbn [JsNumber.toIntegerOrInfinity].
    unfold JsNumber.truncate, inject_Z. cbn [Qnum Qden]. rewrite Z.quot_1_r.
    destruct (Z.ltb_spec 100 n); [| lia]. now rewrite orb_true_r. }
  rewrite Hfixed. eexists. reflexivity.
Qed.

Lemma avg_digits_above_100_witness :
  exists message,
    fst (avg (Num 101) Fixtures.history_world) = Thrown (RangeError message).
Proof.
  destruct (avg_digits_above_100 101 Fixtures.history_world
              "https://api.example/history?start_at=2021-01-01&end_at=2021-01-02&access_key=KEY"
              "USD" (mkDate 2021 1 2) Fixtures.history_rates)
    as [message Hrun].
  - lia.
  - reflexivity.
  - reflexivity.
  - reflexivity.
  - reflexivity.
  - cbn. lia.
  - repeat constructor.
  - discriminate.
  - exists message. exact (f_equal fst Hrun).
Defined.

(* ------------------------------------------------------------------ *)
(** ** Chains of calls *)

(** X16: [from(f)] and [to(t)] may be chained in either order, and the
    URL that follows is decided by the two dates alone: the history URL
    when [f] is not after [t] and lies in 1999 or later, InvalidDateOrder
    when [f] is after [t], UnsupportedHistoricalYear when [f] is not after
    [t] and lies before 1999; whatever date selection the instance had
    before is forgotten. *)
Theorem from_to_chain (w : World) (f t : Date) :
  (from f ;; to t) w = (to t ;; from f) w
  /\ (DateFns.isAfter f t = false -> 1999 <= DateFns.getYear f ->
        fst ((from f ;; to t ;; url) w)
        = Returned (_apiBaseUrl (this w) ++ "/history"
                    ++ QueryStringBuilder.toString
                         ([("start_at", Utils.formatDate f);
                           ("end_at", Utils.formatDate t)]
                          ++ common_params (this w))%list))
  /\ (DateFns.isAfter f t = true ->
        fst ((from f ;; to t ;; url) w) = Thrown InvalidDateOrder)
  /\ (DateFns.isAfter f t = false -> DateFns.getYear f < 1999 ->
        fst ((from f ;; to t ;; url) w) = Thrown UnsupportedHistoricalYear).
Proof.
  split; [reflexivity |].
  unfold from, to. rewrite !modifyThis_then. cbn [this network requests].
  rewrite url_cases, _validate_cases.
  unfold from_is_latest, from_isAfter_to, from_before_1999, Utils.parseDate.
  cbn [this with_from with_to _from _to fst].
  split; [| split].
  - intros Hafter Hyear. rewrite Hafter.
    destruct (Z.ltb_spec (DateFns.getYear f) 1999); [lia |]. reflexivity.
  - intros Hafter. rewrite Hafter. reflexivity.
  - intros Hafter Hyear. rewrite Hafter.
    destruct (Z.ltb_spec (DateFns.getYear f) 1999); [| lia]. reflexivity.
Qed.

Lemma from_to_chain_witness :
  fst ((from Fixtures.jan_2020 ;; to Fixtures.end_jan_2020 ;; url)
         (Fixtures.world_of (with_from (FromOn Fixtures.dec_1998) Fixtures.client)))
  = Returned "https://api.example/history?start_at=2020-01-01&end_at=2020-01-31&access_key=KEY"
  /\ fst ((from Fixtures.end_jan_2020 ;; to Fixtures.jan_2020 ;; url)
            (Fixtures.world_of Fixtures.client))
     = Thrown InvalidDateOrder.
Proof.
  split.
  - rewrite (proj1 (proj2 (from_to_chain
               (Fixtures.world_of
                  (with_from (FromOn Fixtures.dec_1998) Fixtures.client))
               Fixtures.jan_2020 Fixtures.end_jan_2020))).
    + reflexivity.
    + reflexivity.
    + vm_compute. discriminate.
  - apply (proj1 (proj2 (proj2 (from_to_chain
               (Fixtures.world_of Fixtures.client)
               Fixtures.end_jan_2020 Fixtures.jan_2020)))).
    reflexivity.
Defined.

Lemma known_dec (table : list string) (toUpperCase : string -> string)
      (c : string) :
  known table toUpperCase c \/ ~ known table toUpperCase c.
Proof.
  unfold known.
  destruct (JsObject.has_key table (toUpperCase c)) eqn:Hk.
  - left. now apply has_key_In.
  - right. intros Hin. apply has_key_In in Hin. congruence.
Qed.

Lemma known_split (table : list string) (toUpperCase : string -> string)
      (l : list string) :
  Forall (known table toUpperCase) l
  \/ exists good bad rest,
       l = (good ++ bad :: rest)%list
       /\ Forall (known table toUpperCase) good
       /\ ~ known table toUpperCase bad.
Proof.
  induction l as [| c l IH].
  - left. constructor.
  - destruct (known_dec table toUpperCase c) as [Hc | Hc].
    + destruct IH as [Hall | [good [bad [rest [-> [Hgood Hbad]]]]]].
      * left. now constructor.
      * right. exists (c :: good), bad, rest.
        repeat split; [now constructor | assumption].
    + right. exists [], c, l. repeat split; [constructor | assumption].
Qed.

Lemma symbols_cases (table : list string) (toUpperCase : string -> string)
      (arg : SymbolsArg) (w : World) :
  (exists l, symbols table toUpperCase arg w
             = (Returned tt,
                mkWorld (with_symbols l (this w)) (network w) (requests w)))
  \/ exists e, symbols table toUpperCase arg w = (Thrown e, w).
Proof.
  destruct (known_split table toUpperCase (codes_of arg))
    as [Hall | [good [bad [rest [Hsplit [Hgood Hbad]]]]]].
  - left. eexists.
    unfold symbols. fold (codes_of arg). unfold bind.
    rewrite (symbols_loop_known table toUpperCase _ w Hall). reflexivity.
  - right. eexists.
    unfold symbols. fold (codes_of arg). rewrite Hsplit. unfold bind.
    rewrite (symbols_loop_unknown table toUpperCase good bad rest w Hgood Hbad).
    reflexivity.
Qed.

(** Whatever it does, [symbols] on the held array writes that array
    only. *)
Lemma symbols_held_loop_frame (table : list string)
      (toUpperCase : string -> string) (todo : list string) :
  forall (i : nat) (w : World),
  exists l,
    snd (symbols_held_loop table toUpperCase i todo w)
    = mkWorld (with_symbols l (this w)) (network w) (requests w).
Proof.
  induction todo as [| c todo IH]; intros i w; cbn [symbols_held_loop].
  - exists (_symbols (this w)). destruct w as [[u k b s f t] n r]. reflexivity.
  - unfold bind at 1. unfold _validateCurrency, throw_if.
    destruct (JsObject.has_key table (toUpperCase c)); cbn [negb].
    + unfold ret at 1. unfold bind at 1. unfold write_held, modifyThis.
      match goal with
      | |- context [symbols_held_loop _ _ _ _ ?w1] =>
          destruct (IH (S i) w1) as [l Hl]; rewrite Hl
      end.
      exists l. reflexivity.
    + exists (_symbols (this w)). destruct w as [[u k b s f t] n r].
      reflexivity.
Qed.

(** What one call leaves of the world. *)
Lemma call_effect (table : list string) (toUpperCase : string -> string)
      (c : Call) (w : World) :
  _apiBaseUrl (this (snd (call table toUpperCase c w))) = _apiBaseUrl (this w)
  /\ _accessKey (this (snd (call table toUpperCase c w))) = _accessKey (this w)
  /\ network (snd (call table toUpperCase c w)) = network w
  /\ (exists sent, requests (snd (call table toUpperCase c w))
                   = (requests w ++ sent)%list)
  /\ (_to (this w) <> None ->
      _to (this (snd (call table toUpperCase c w))) <> None)
  /\ (holds_known_base table toUpperCase (this w) ->
      holds_known_base table toUpperCase
        (this (snd (call table toUpperCase c w)))).
Proof.
  assert (Hnil : exists sent, requests w = (requests w ++ sent)%list)
    by (exists []; now rewrite app_nil_r).
  assert (Hsame : forall w', this w' = this w -> network w' = network w ->
            (exists sent, requests w' = (requests w ++ sent)%list) ->
            _apiBaseUrl (this w') = _apiBaseUrl (this w)
            /\ _accessKey (this w') = _accessKey (this w)
            /\ network w' = network w
            /\ (exists sent, requests w' = (requests w ++ sent)%list)
            /\ (_to (this w) <> None -> _to (this w') <> None)
            /\ (holds_known_base table toUpperCase (this w) ->
                holds_known_base table toUpperCase (this w'))).
  { intros w' Hthis Hnet Hsent. rewrite Hthis.
    split; [reflexivity |]. split; [reflexivity |]. split; [exact Hnet |].
    split; [exact Hsent |]. split; intros H; exact H. }
  assert (Hwrite : forall f : ExchangeRatesApi -> ExchangeRatesApi,
            (forall a, _apiBaseUrl (f a) = _apiBaseUrl a) ->
            (forall a, _accessKey (f a) = _accessKey a) ->
            (forall a, _to a <> None -> _to (f a) <> None) ->
            (forall a, _base (f a) = _base a) ->
            let w' := mkWorld (f (this w)) (network w) (requests w) in
            _apiBaseUrl (this w') = _apiBaseUrl (this w)
            /\ _accessKey (this w') = _accessKey (this w)
            /\ network w' = network w
            /\ (exists sent, requests w' = (requests w ++ sent)%list)
            /\ (_to (this w) <> None -> _to (this w') <> None)
            /\ (holds_known_base table toUpperCase (this w) ->
                holds_known_base table toUpperCase (this w'))).
  { intros f Hu Hk Ht Hb. cbv zeta. cbn [this network requests].
    split; [apply Hu |]. split; [apply Hk |]. split; [reflexivity |].
    split; [exact Hnil |]. split; [apply Ht |].
    unfold holds_known_base. rewrite Hb. exact (fun H => H). }
  destruct c as [date | | date | date | currency | arg | | content | | |
                 decimalPlaces]; cbn [call].
  - apply (Hwrite (with_from (FromOn (Utils.parseDate date)))); reflexivity
      || (intros a H; exact H).
  - apply (Hwrite (with_from FromLatest)); reflexivity || (intros a H; exact H).
  - apply (Hwrite (with_from (FromOn (Utils.parseDate date)))); reflexivity
      || (intros a H; exact H).
  - apply (Hwrite (with_to (Some (Utils.parseDate date)))); try reflexivity.
    intros a _. discriminate.
  - rewrite base_cases.
    destruct (JsObject.has_key table (toUpperCase currency)) eqn:Hk;
      cbn [snd]; [| now apply Hsame].
    unfold holds_known_base.
    cbn [this network requests with_base _base _to _apiBaseUrl _accessKey].
    split; [reflexivity |]. split; [reflexivity |]. split; [reflexivity |].
    split; [exact Hnil |]. split; [exact (fun H => H) |].
    intros _. split; [now apply has_key_In | now exists currency].
  - destruct (symbols_cases table toUpperCase arg w) as [[l ->] | [e ->]];
      cbn [snd]; [| now apply Hsame].
    apply (Hwrite (with_symbols l)); reflexivity || (intros a H; exact H).
  - unfold symbols_held, bind, getThis.
    destruct (_symbols (this w)) as [held |]; [| now apply Hsame].
    destruct (symbols_held_loop_frame table toUpperCase held 0 w) as [l ->].
    apply (Hwrite (with_symbols l)); reflexivity || (intros a H; exact H).
  - unfold caller_writes.
    apply (Hwrite (fun self => match _symbols self with
                               | Some _ => with_symbols (Some content) self
                               | None => self
                               end));
      intros a; destruct (_symbols a); try reflexivity; exact (fun H => H).
  - unfold bind. rewrite url_cases.
    destruct (fst (_validate w)); cbn [snd]; now apply Hsame.
  - unfold bind. rewrite fetch_cases.
    destruct (fst (_validate w)); cbv zeta; [| cbn [snd]; now apply Hsame].
    match goal with
    | |- context [(?o, mkWorld ?a ?b ?d)] => destruct o
    end; cbn [snd]; apply Hsame; try reflexivity; eexists; reflexivity.
  - destruct (avg_world decimalPlaces w) as [Hthis [Hnet Hreq]].
    assert (Hsnd : snd ((_ <- avg decimalPlaces ;; ret tt) w)
                   = snd (avg decimalPlaces w)).
    { unfold bind. destruct (avg decimalPlaces w) as [[v | e] w1];
        reflexivity. }
    rewrite Hsnd. apply Hsame; try assumption.
    destruct Hreq as [-> | ->]; [exact Hnil | eexists; reflexivity].
Qed.

(** X17: whatever calls are made on an instance, in whatever order and
    whether they throw or not, its endpoint, its access key and its server
    stay the same, the requests already issued stay in the log, and once a
    [to] date has been set it is never unset: no method brings the
    instance back to a latest or single-date request. *)
Theorem calls_never_leave_range (table : list string) (toUpperCase : string -> string) (cs : list Call)
        (w : World) :
  _apiBaseUrl (this (run_calls table toUpperCase cs w)) = _apiBaseUrl (this w)
  /\ _accessKey (this (run_calls table toUpperCase cs w)) = _accessKey (this w)
  /\ network (run_calls table toUpperCase cs w) = network w
  /\ (exists sent, requests (run_calls table toUpperCase cs w)
                   = (requests w ++ sent)%list)
  /\ (_to (this w) <> None -> _to (this (run_calls table toUpperCase cs w)) <> None).
Proof.
  unfold run_calls. revert w.
  induction cs as [| c cs IH]; intros w; cbn [fold_left].
  - repeat split; try tauto. exists []. now rewrite app_nil_r.
  - destruct (call_effect table toUpperCase c w)
      as [Hu [Hk [Hn [[s1 Hs1] [Ht _]]]]].
    destruct (IH (snd (call table toUpperCase c w)))
      as [Hu' [Hk' [Hn' [[s2 Hs2] Ht']]]].
    split; [congruence |]. split; [congruence |]. split; [congruence |].
    split; [| tauto].
    exists (s1 ++ s2)%list. rewrite Hs2, Hs1, app_assoc. reflexivity.
Qed.

Lemma calls_never_leave_range_witness :
  _to (this (run_calls Fixtures.table JsString.toUpperCase_ascii
               [CallLatest; CallAt Fixtures.dec_1998; CallUrl; CallBase "usd"]
               (Fixtures.world_of
                  (Fixtures.range Fixtures.jan_2020 Fixtures.end_jan_2020))))
  <> None.
Proof.
  apply (calls_never_leave_range Fixtures.table JsString.toUpperCase_ascii
           [CallLatest; CallAt Fixtures.dec_1998; CallUrl; CallBase "usd"]
           (Fixtures.world_of
              (Fixtures.range Fixtures.jan_2020 Fixtures.end_jan_2020))).
  discriminate.
Defined.

(** X18: the base an instance holds is always a name of the currency
    table and an upper-cased string: this is true of a new instance,
    which holds none, and every call keeps it, the failed ones and the
    caller's changes to the symbols array included. *)
Theorem calls_keep_known_base (table : list string)
        (toUpperCase : string -> string) (cs : list Call) (w : World)
        (Hknown : holds_known_base table toUpperCase (this w)) :
  holds_known_base table toUpperCase (this (run_calls table toUpperCase cs w)).
Proof.
  unfold run_calls. revert w Hknown.
  induction cs as [| c cs IH]; intros w Hknown; cbn [fold_left].
  - exact Hknown.
  - apply IH.
    destruct (call_effect table toUpperCase c w) as [_ [_ [_ [_ [_ Hkeep]]]]].
    now apply Hkeep.
Qed.

Lemma calls_keep_known_base_witness :
  holds_known_base Fixtures.table JsString.toUpperCase_ascii
    (this (run_calls Fixtures.table JsString.toUpperCase_ascii
             [CallBase "usd"; CallSymbols (ManySymbols ["gbp"; "eur"]);
              CallerWrites ["gbp"; "btc"]; CallSymbolsHeld;
              CallBase "doge"; CallFetch]
             (Fixtures.world_of (fresh "https://api.example" "KEY")))).
Proof.
  apply (calls_keep_known_base Fixtures.table JsString.toUpperCase_ascii
           [CallBase "usd"; CallSymbols (ManySymbols ["gbp"; "eur"]);
            CallerWrites ["gbp"; "btc"]; CallSymbolsHeld;
            CallBase "doge"; CallFetch]
           (Fixtures.world_of (fresh "https://api.example" "KEY"))).
  exact I.
Defined.
